(** * Get-your-Popcorn: seat release, booking ledger and show catalog

    A shallow embedding of the backend code that decides the booking
    lifecycle:

    - the Booking model: the Mongoose schema [bookingSchema];
    - [backend/inngest/index.js]: the delayed job
      [releaseSeatsAndDeleteBooking];
    - [backend/controllers/userController.js]: [getUserBookings];
    - the show controller: [makeRequestWithRetry], [addShow], [getShows].

    MongoDB collections are lists of documents in natural (insertion)
    order; a Show's [occupiedSeats] object is a finite map from seat label
    to holder id.  Route handlers and the job body are state transformers
    over the database that may throw. *)

From stdpp Require Import base option list gmap strings sorting.
From Stdlib Require Import ZArith Lia.

Set Warnings "-register-all".

Open Scope string_scope.
Open Scope list_scope.
Open Scope Z_scope.

(** ** JavaScript values, as far as the code inspects them *)

Module Js.

(** Numbers are integers here: the code only tests them for zero and
    passes them on. *)
Inductive val : Type :=
| Undefined
| Null
| Bool (b : bool)
| Num (n : Z)
| Str (s : string)
| Arr (l : list val).

(** [ToBoolean]: every object, hence every array (also [[]] and
    [[false]]), is truthy. *)
Definition truthy (v : val) : bool :=
  match v with
  | Undefined | Null => false
  | Bool b => b
  | Num n => negb (n =? 0)
  | Str s => negb (String.eqb s "")
  | Arr _ => true
  end.

(** [[].concat(v)]: an array argument is spliced, anything else is
    appended as one element. *)
Definition concat_onto_empty (v : val) : list val :=
  match v with
  | Arr l => l
  | _ => [v]
  end.

(** What the engine throws. *)
Inductive exn : Type :=
| TypeError            (* property access on null / undefined *)
| Error (msg : string).

End Js.

(** ** Mongoose: the part of schema handling that [bookingSchema] uses *)

Module Mongoose.

Inductive SchemaType : Type := String_ | Number_ | Array_.

Record Path : Type := mkPath {
  type : SchemaType;
  required : bool;
  ref : option string;
  default : option Js.val
}.

Record Schema : Type := mkSchema {
  paths : list (string * Path);
  options : list (string * Js.val)
}.

Fixpoint assoc {A} (k : string) (l : list (string * A)) : option A :=
  match l with
  | [] => None
  | (k', v) :: l' => if String.eqb k k' then Some v else assoc k l'
  end.

(** Casting a value that is being set on a path.  An [Array] path keeps
    arrays, keeps [null] and [undefined] as they are, and wraps anything
    else in a one-element array ([castNonArrays]).  The String and
    Number paths of this code only ever receive strings and numbers. *)
Definition cast (t : SchemaType) (v : Js.val) : Js.val :=
  match t with
  | Array_ =>
      match v with
      | Js.Arr l => Js.Arr l
      | Js.Null => Js.Null
      | Js.Undefined => Js.Undefined
      | _ => Js.Arr [v]
      end
  | String_ | Number_ => v
  end.

(** The default of a path that was not set.  An [Array] path defaults
    to [[].concat(default)], and to [[]] when no default is declared. *)
Definition default_value (p : Path) : Js.val :=
  match type p with
  | Array_ =>
      match default p with
      | Some d => Js.Arr (Js.concat_onto_empty d)
      | None => Js.Arr []
      end
  | _ =>
      match default p with
      | Some d => cast (type p) d
      | None => Js.Undefined
      end
  end.

(** The value a new document holds at path [k] when the caller supplied
    [given] ([None]: the key was not supplied).  The default applies to
    a key that is absent or [undefined], not to [null]. *)
Definition init_path (s : Schema) (k : string) (given : option Js.val) : Js.val :=
  match assoc k (paths s) with
  | Some p =>
      match given with
      | Some Js.Undefined | None => default_value p
      | Some v => cast (type p) v
      end
  | None => Js.Undefined   (* strict mode: unknown keys are dropped *)
  end.

(** [createdAt] / [updatedAt] are maintained only under the schema
    option named [timestamps]. *)
Definition has_timestamps (s : Schema) : bool :=
  match assoc "timestamps" (options s) with
  | Some v => Js.truthy v
  | None => false
  end.

End Mongoose.

(** ** Models *)

Module Movie.

Record doc : Type := mk {
  _id : string;
  title : string;
  overview : string;
  poster_path : string;
  backdrop_path : string;
  genres : list string;
  casts : list string;
  release_date : string;
  original_language : string;
  tagline : string;
  vote_average : Z;
  runtime : Z
}.

Fixpoint findById (id : string) (c : list doc) : option doc :=
  match c with
  | [] => None
  | d :: c' => if String.eqb (_id d) id then Some d else findById id c'
  end.

Definition create (d : doc) (c : list doc) : list doc := c ++ [d].

End Movie.

Module Show.

(** Modelled from the spec: [models/Show.js] is not among the sources.
    A Show has a movie reference, a start time, a price and the
    occupied-seats mapping from seat label to the holder's id. *)
Record doc : Type := mk {
  _id : string;
  movie : string;
  showDateTime : Z;                 (* epoch milliseconds *)
  showPrice : Z;
  occupiedSeats : gmap string string
}.

Fixpoint findById (id : string) (c : list doc) : option doc :=
  match c with
  | [] => None
  | d :: c' => if String.eqb (_id d) id then Some d else findById id c'
  end.

Definition set_occupiedSeats (occ : gmap string string) (d : doc) : doc :=
  mk (_id d) (movie d) (showDateTime d) (showPrice d) occ.

(** [show.markModified("occupiedSeats"); show.save()]: the stored
    document with this [_id] gets the in-memory [occupiedSeats]. *)
Definition save (s : doc) (c : list doc) : list doc :=
  (λ d, if String.eqb (_id d) (_id s)
        then set_occupiedSeats (occupiedSeats s) d
        else d) <$> c.

End Show.

Module Booking.

(** [bookingSchema], field for field and option for option. *)
Definition bookingSchema : Mongoose.Schema :=
  Mongoose.mkSchema
    [ ("user",        Mongoose.mkPath Mongoose.String_ true  (Some "User") None);
      ("show",        Mongoose.mkPath Mongoose.String_ true  (Some "Show") None);
      ("amount",      Mongoose.mkPath Mongoose.Number_ true  None None);
      ("bookedSeats", Mongoose.mkPath Mongoose.Array_  true  None None);
      ("isPaid",      Mongoose.mkPath Mongoose.Array_  false None (Some (Js.Bool false)));
      ("paymentLink", Mongoose.mkPath Mongoose.String_ false None None) ]
    [ ("timestamp", Js.Bool true) ].

(** A Booking document as the code sees it.  [isPaid] is whatever the
    schema stores; [createdAt] exists only if the schema maintains
    timestamps. *)
Record doc : Type := mk {
  _id : string;
  user : string;
  show : string;
  amount : Z;
  bookedSeats : list string;
  isPaid : Js.val;
  paymentLink : option string;
  createdAt : option Z
}.

(** The keys a caller passes to [Booking.create]. *)
Record fields : Type := mkFields {
  f_id : string;                    (* the generated ObjectId *)
  f_user : string;
  f_show : string;
  f_amount : Z;
  f_bookedSeats : list string;
  f_isPaid : option Js.val;         (* [None]: key not supplied *)
  f_paymentLink : option string
}.

Definition new (s : Mongoose.Schema) (now : Z) (f : fields) : doc :=
  mk (f_id f) (f_user f) (f_show f) (f_amount f) (f_bookedSeats f)
     (Mongoose.init_path s "isPaid" (f_isPaid f))
     (f_paymentLink f)
     (if Mongoose.has_timestamps s then Some now else None).

Definition create (now : Z) (f : fields) (c : list doc) : list doc :=
  c ++ [new bookingSchema now f].

Fixpoint findById (id : string) (c : list doc) : option doc :=
  match c with
  | [] => None
  | d :: c' => if String.eqb (_id d) id then Some d else findById id c'
  end.

Fixpoint findByIdAndDelete (id : string) (c : list doc) : list doc :=
  match c with
  | [] => []
  | d :: c' => if String.eqb (_id d) id then c' else d :: findByIdAndDelete id c'
  end.

(** [Booking.find({ user })] *)
Definition find_user (u : string) (c : list doc) : list doc :=
  filter (λ d, user d = u) c.

End Booking.

(** ** The world the handlers run in *)

(** Writes reaching MongoDB, in the order they are applied. *)
Inductive write : Type :=
| MovieCreate (id : string)
| ShowInsertMany (ids : list string)
| ShowSave (id : string) (occ : gmap string string)
| BookingDelete (id : string).

(** An event handed to [inngest.send]. *)
Record Event : Type := mkEvent {
  name : string;
  movieTitle : string
}.

Record World : Type := mkWorld {
  movies : list Movie.doc;
  shows : list Show.doc;
  bookings : list Booking.doc;
  oplog : list write;
  next_oid : nat;                     (* ObjectIds handed out so far *)
  sent : list Event
}.

(** ** Async code as a state transformer that may throw *)

Definition M (A : Type) : Type := World → (Js.exn + A) * World.

Definition ret {A} (a : A) : M A := λ w, (inr a, w).

Definition throw {A} (e : Js.exn) : M A := λ w, (inl e, w).

Definition bind {A B} (m : M A) (k : A → M B) : M B :=
  λ w, match m w with
       | (inl e, w') => (inl e, w')
       | (inr a, w') => k a w'
       end.

#[global] Instance M_ret : MRet M := @ret.
#[global] Instance M_bind : MBind M := λ A B k m, bind m k.

(** Reading a property of a value that may be [null]. *)
Definition deref {A} (o : option A) : M A :=
  match o with
  | Some a => ret a
  | None => throw Js.TypeError
  end.

Definition Movie_findById (id : string) : M (option Movie.doc) :=
  λ w, (inr (Movie.findById id (movies w)), w).

Definition Show_findById (id : string) : M (option Show.doc) :=
  λ w, (inr (Show.findById id (shows w)), w).

Definition Booking_findById (id : string) : M (option Booking.doc) :=
  λ w, (inr (Booking.findById id (bookings w)), w).

Definition Show_save (s : Show.doc) : M unit :=
  λ w, (inr tt,
        mkWorld (movies w) (Show.save s (shows w)) (bookings w)
                (oplog w ++ [ShowSave (Show._id s) (Show.occupiedSeats s)])
                (next_oid w) (sent w)).

Definition Booking_findByIdAndDelete (id : string) : M unit :=
  λ w, (inr tt,
        mkWorld (movies w) (shows w) (Booking.findByIdAndDelete id (bookings w))
                (oplog w ++ [BookingDelete id])
                (next_oid w) (sent w)).

(** ** inngest/index.js: releaseSeatsAndDeleteBooking *)

(** [booking.bookedSeats.forEach((seat) => { delete show.occupiedSeats[seat]; })] *)
Definition release_seats (seats : list string) (occ : gmap string string)
  : gmap string string :=
  foldl (λ o seat, delete seat o) occ seats.

(** The callback of [step.run("check-payment-status", ...)].  [booking]
    and [show] are what [findById] resolved to, possibly [null]; reading
    [booking.isPaid] off [null] throws, and so does the use of a [null]
    [show] (in the loop body, or at [show.markModified] when the loop
    has nothing to visit), in both cases before anything is written. *)
Definition check_payment_status (bookingId : string) : M unit :=
  booking ← Booking_findById bookingId;
  b ← deref booking;
  if negb (Js.truthy (Booking.isPaid b)) then
    show ← Show_findById (Booking.show b);
    s ← deref show;
    let s' := Show.set_occupiedSeats
                (release_seats (Booking.bookedSeats b) (Show.occupiedSeats s)) s in
    Show_save s';;
    Booking_findByIdAndDelete (Booking._id b)
  else mret tt.

(** The function registered for [app/checkpayment]: after
    [step.sleepUntil] (which only delays) it runs the step above with
    [event.data.bookingId]. *)
Definition releaseSeatsAndDeleteBooking (bookingId : string) : M unit :=
  check_payment_status bookingId.

(** Holder of a seat in a show, as stored. *)
Definition holder (w : World) (showId seat : string) : option string :=
  match Show.findById showId (shows w) with
  | Some s => Show.occupiedSeats s !! seat
  | None => None
  end.

(** ** Express responses *)

Record PopulatedShow : Type := mkPShow {
  ps_show : Show.doc;
  ps_movie : option Movie.doc         (* [null] when the reference dangles *)
}.

Record PopulatedBooking : Type := mkPBooking {
  pb_booking : Booking.doc;
  pb_show : option PopulatedShow
}.

Inductive body : Type :=
| Message (success : bool) (message : string)
| BookingsBody (success : bool) (bookings : list PopulatedBooking)
| ShowsBody (success : bool) (shows : list Movie.doc).

Record Response : Type := mkResponse {
  status : Z;
  json : body
}.

Definition exn_message (e : Js.exn) : string :=
  match e with
  | Js.TypeError => "Cannot read properties of null"
  | Js.Error msg => msg
  end.

Definition try_catch {A} (m : M A) (handler : Js.exn → M A) : M A :=
  λ w, match m w with
       | (inl e, w') => handler e w'
       | (inr a, w') => (inr a, w')
       end.

(** ** Query helpers: sort and populate *)

(** A stable insertion sort; [le x y] says that [x] may precede [y]. *)
Fixpoint insert_by {A} (le : A → A → bool) (x : A) (l : list A) : list A :=
  match l with
  | [] => [x]
  | y :: l' => if le x y then x :: y :: l' else y :: insert_by le x l'
  end.

Fixpoint sort_by {A} (le : A → A → bool) (l : list A) : list A :=
  match l with
  | [] => []
  | x :: l' => insert_by le x (sort_by le l')
  end.

(** MongoDB orders a missing field before every value. *)
Definition key_le (a b : option Z) : bool :=
  match a, b with
  | None, _ => true
  | Some _, None => false
  | Some x, Some y => x <=? y
  end.

(** [.sort({ createdAt: -1 })] *)
Definition createdAt_desc (a b : Booking.doc) : bool :=
  key_le (Booking.createdAt b) (Booking.createdAt a).

(** [.sort({ showDateTime: 1 })] *)
Definition showDateTime_asc (a b : Show.doc) : bool :=
  Show.showDateTime a <=? Show.showDateTime b.

Definition populate_movie (w : World) (s : Show.doc) : PopulatedShow :=
  mkPShow s (Movie.findById (Show.movie s) (movies w)).

(** [.populate({ path: "show", populate: { path: "movie" } })] *)
Definition populate_show (w : World) (b : Booking.doc) : PopulatedBooking :=
  mkPBooking b (populate_movie w <$> Show.findById (Booking.show b) (shows w)).

(** ** controllers/userController.js: getUserBookings *)

Definition Booking_find_user_sorted (user : string) : M (list PopulatedBooking) :=
  λ w, (inr (populate_show w <$>
               sort_by createdAt_desc (Booking.find_user user (bookings w))), w).

Definition getUserBookings (user : string) : M Response :=
  try_catch
    (bookings ← Booking_find_user_sorted user;
     mret (mkResponse 200 (BookingsBody true bookings)))
    (λ error, mret (mkResponse 200 (Message false (exn_message error)))).

(** ** controllers/showController.js *)

(** One element of [showsInput]: a date with either an array of times or
    a single time string. *)
Inductive TimeField : Type :=
| Times (ts : list string)
| OneTime (t : string).

Record ShowInput : Type := mkShowInput {
  date : string;
  time : TimeField
}.

(** [req.body] of POST /api/show/add; [None] is an absent key. *)
Record AddShowBody : Type := mkAddShowBody {
  movieId : option string;
  showsInput : option (list ShowInput);
  showPrice : option Z
}.

(** [!movieId], [!showPrice]: absent, or present but falsy. *)
Definition not_string (o : option string) : bool :=
  match o with
  | Some s => negb (Js.truthy (Js.Str s))
  | None => true
  end.

Definition not_number (o : option Z) : bool :=
  match o with
  | Some n => negb (Js.truthy (Js.Num n))
  | None => true
  end.

(** [!showsInput || showsInput.length === 0] *)
Definition no_slots (o : option (list ShowInput)) : bool :=
  match o with
  | Some l => (length l =? 0)%nat
  | None => true
  end.

Inductive AxiosCode : Type :=
| ECONNRESET | ETIMEDOUT | ERR_NETWORK | SELF_SIGNED_CERT_IN_CHAIN | OtherCode.

Record AxiosError : Type := mkAxiosError {
  code : AxiosCode;
  err_message : string
}.

Definition retryable (c : AxiosCode) : bool :=
  match c with
  | ECONNRESET | ETIMEDOUT | ERR_NETWORK => true
  | _ => false
  end.

(** [makeRequestWithRetry]: [get n] is the outcome of the attempt made
    after [n] failures; [fuel] is [maxRetries - retries]. *)
Fixpoint retry_loop {R} (url : string) (get : nat → AxiosError + R)
    (retries fuel : nat) : Js.exn + R :=
  match fuel with
  | O => inl (Js.Error ("Failed to fetch data from " +:+ url +:+ " after 6 attempts."))
  | S fuel' =>
      match get retries with
      | inr response => inr response
      | inl error =>
          if retryable (code error)
          then retry_loop url get (S retries) fuel'
          else inl (Js.Error (err_message error))
      end
  end.

Definition makeRequestWithRetry {R} (url : string) (get : nat → AxiosError + R)
  : Js.exn + R :=
  retry_loop url get 0 6.

(** What TMDB's movie endpoint returns, as far as [addShow] copies it. *)
Record MovieApiData : Type := mkMovieApiData {
  api_title : string;
  api_overview : string;
  api_poster_path : string;
  api_backdrop_path : string;
  api_genres : list string;
  api_release_date : string;
  api_original_language : string;
  api_tagline : option string;
  api_vote_average : Z;
  api_runtime : Z
}.

Definition Movie_create (d : Movie.doc) : M Movie.doc :=
  λ w, (inr d,
        mkWorld (Movie.create d (movies w)) (shows w) (bookings w)
                (oplog w ++ [MovieCreate (Movie._id d)])
                (next_oid w) (sent w)).

Definition inngest_send (e : Event) : M unit :=
  λ w, (inr tt,
        mkWorld (movies w) (shows w) (bookings w) (oplog w) (next_oid w)
                (sent w ++ [e])).

Definition lift {A} (r : Js.exn + A) : M A := λ w, (r, w).

(** [await Promise.all([a, b])] on two requests that have settled: both
    values, or the rejection that arrived first. *)
Definition Promise_all {A B} (second_rejects_first : bool)
    (a : Js.exn + A) (b : Js.exn + B) : Js.exn + (A * B) :=
  match a, b with
  | inr x, inr y => inr (x, y)
  | inl e, inr _ => inl e
  | inr _, inl e => inl e
  | inl e1, inl e2 => inl (if second_rejects_first then e2 else e1)
  end.

(** The object pushed onto [showsToCreate]: it has no [_id] until
    [insertMany] assigns one, and its [showDateTime] is whatever
    [new Date(...)] gave, [None] for an Invalid Date. *)
Record NewShow : Type := mkNewShow {
  ns_movie : string;
  ns_showDateTime : option Z;
  ns_showPrice : Z;
  ns_occupiedSeats : gmap string string
}.

(** Validation of one document by [insertMany]: an Invalid Date is not a
    Show's start time. *)
Definition validated (n : NewShow) : option Show.doc :=
  match ns_showDateTime n with
  | Some t => Some (Show.mk "" (ns_movie n) t (ns_showPrice n) (ns_occupiedSeats n))
  | None => None
  end.

Section ShowController.

(** [new Date(string)] as epoch milliseconds; [None] when the string
    does not parse (Invalid Date). *)
Variable Date_new : string → option Z.
(** The [n]-th ObjectId the driver generates. *)
Variable ObjectId : nat → string.
(** [axios.get] on TMDB's movie and credits endpoints, per movie id and
    attempt. *)
Variable tmdb_movie : string → nat → AxiosError + MovieApiData.
Variable tmdb_credits : string → nat → AxiosError + list string.
(** When both TMDB requests for a movie id reject: whether the credits
    request's rejection arrives before the details request's. *)
Variable credits_rejects_first : string → bool.
(** The message of the validation error [insertMany] rejects with. *)
Variable insertMany_rejection : string.

Definition new_show (movieId : string) (showPrice : Z) (showDate time : string)
  : NewShow :=
  mkNewShow movieId (Date_new (showDate +:+ "T" +:+ time)) showPrice ∅.

(** The two nested [forEach] loops with their [push]. *)
Definition showsToCreate (movieId : string) (showPrice : Z)
    (showsInput : list ShowInput) : list NewShow :=
  foldl (λ acc show,
           match time show with
           | Times ts =>
               foldl (λ acc t, acc ++ [new_show movieId showPrice (date show) t]) acc ts
           | OneTime t => acc ++ [new_show movieId showPrice (date show) t]
           end)
        [] showsInput.

Definition assign_ids (from : nat) (l : list Show.doc) : list Show.doc :=
  imap (λ i d, Show.mk (ObjectId (from + i)) (Show.movie d) (Show.showDateTime d)
                        (Show.showPrice d) (Show.occupiedSeats d)) l.

(** [Show.insertMany]: every document is validated first; one invalid
    document rejects the whole batch and nothing is stored. *)
Definition Show_insertMany (l : list NewShow) : M unit :=
  λ w, match mapM validated l with
       | None => (inl (Js.Error insertMany_rejection), w)
       | Some valid =>
           let docs := assign_ids (next_oid w) valid in
           (inr tt,
            mkWorld (movies w) (shows w ++ docs) (bookings w)
                    (oplog w ++ [ShowInsertMany (Show._id <$> docs)])
                    (next_oid w + length valid)%nat (sent w))
       end.

(** The [MovieDetails] object built from the two TMDB responses. *)
Definition MovieDetails (movieId : string) (movieApiData : MovieApiData)
    (cast : list string) : Movie.doc :=
  Movie.mk movieId (api_title movieApiData) (api_overview movieApiData)
           (api_poster_path movieApiData) (api_backdrop_path movieApiData)
           (api_genres movieApiData) cast (api_release_date movieApiData)
           (api_original_language movieApiData)
           (default "" (api_tagline movieApiData))
           (api_vote_average movieApiData) (api_runtime movieApiData).

Definition show_added (title : string) : Event := mkEvent "app/show.added" title.

Definition missing_fields : Response :=
  mkResponse 400 (Message false "Required fields missing.").

Definition addShow (req : AddShowBody) : M Response :=
  try_catch
    (if not_string (movieId req) || no_slots (showsInput req)
        || not_number (showPrice req)
     then mret missing_fields
     else
       let id := default "" (movieId req) in
       let price := default 0 (showPrice req) in
       let slots := default [] (showsInput req) in
       found ← Movie_findById id;
       movie ← match found with
               | Some m => mret m
               | None =>
                   let url := "https://api.themoviedb.org/3/movie/" +:+ id in
                   responses ← lift (Promise_all (credits_rejects_first id)
                      (makeRequestWithRetry url (tmdb_movie id))
                      (makeRequestWithRetry (url +:+ "/credits") (tmdb_credits id)));
                   Movie_create (MovieDetails id responses.1 responses.2)
               end;
       let toCreate := showsToCreate id price slots in
       (if (0 <? length toCreate)%nat then Show_insertMany toCreate else mret tt);;
       inngest_send (show_added (Movie.title movie));;
       mret (mkResponse 200 (Message true "Show Added successfully.")))
    (λ error, mret (mkResponse 500 (Message false (exn_message error)))).

(** A JavaScript [Map] keyed by strings, in insertion order. *)
Definition Map_has {V} (k : string) (m : list (string * V)) : bool :=
  existsb (λ kv, String.eqb (fst kv) k) m.

Definition Map_set {V} (k : string) (v : V) (m : list (string * V)) : list (string * V) :=
  if Map_has k m
  then (λ kv, if String.eqb (fst kv) k then (k, v) else kv) <$> m
  else m ++ [(k, v)].

Definition Map_values {V} (m : list (string * V)) : list V := snd <$> m.

(** [Show.find({ showDateTime: { $gte: new Date() } }).populate("movie")
      .sort({ showDateTime: 1 })] *)
Definition Show_find_upcoming (now : Z) : M (list PopulatedShow) :=
  λ w, (inr (populate_movie w <$>
               sort_by showDateTime_asc
                 (filter (λ s, now ≤ Show.showDateTime s) (shows w))), w).

(** The [forEach] that fills [uniqueMovies]. *)
Definition uniqueMovies (shows : list PopulatedShow) : list (string * Movie.doc) :=
  foldl (λ um show,
           match ps_movie show with
           | Some m =>
               if negb (Map_has (Movie._id m) um)
               then Map_set (Movie._id m) m um
               else um
           | None => um
           end)
        [] shows.

Definition getShows (now : Z) : M Response :=
  try_catch
    (shows ← Show_find_upcoming now;
     mret (mkResponse 200 (ShowsBody true (Map_values (uniqueMovies shows)))))
    (λ error, mret (mkResponse 500 (Message false (exn_message error)))).

(** The Movie a request resolves to: the stored one, or the one built
    from TMDB's two answers when none is stored. *)
Definition resolves_to (id : string) (w : World) (m : Movie.doc) : Prop :=
  Movie.findById id (movies w) = Some m
  ∨ (Movie.findById id (movies w) = None
     ∧ ∃ d c,
         makeRequestWithRetry ("https://api.themoviedb.org/3/movie/" +:+ id)
           (tmdb_movie id) = inr d
         ∧ makeRequestWithRetry
             (("https://api.themoviedb.org/3/movie/" +:+ id) +:+ "/credits")
             (tmdb_credits id) = inr c
         ∧ m = MovieDetails id d c).

End ShowController.

(** ** Observations and sample data used by the properties *)

(** Everything of a Show except [occupiedSeats]. *)
Definition Show_static (d : Show.doc) : string * string * Z * Z :=
  (Show._id d, Show.movie d, Show.showDateTime d, Show.showPrice d).

(** Show X of the spec's scenario: price 200, A1 and A2 held by u1, and
    one more seat held by somebody else. *)
Definition showX : Show.doc :=
  Show.mk "X" "m1" 5000 200 (<["A1":="u1"]> (<["A2":="u1"]> (<["B7":="u9"]> ∅))).

Definition showY : Show.doc :=
  Show.mk "Y" "m2" 7000 150 (<["A1":="u3"]> ∅).

(** [Booking.create({ user, show, amount, bookedSeats })]: [isPaid] is
    left to the schema. *)
Definition b1_fields : Booking.fields :=
  Booking.mkFields "b1" "u1" "X" 400 ["A1"; "A2"] None None.

Definition b2_fields : Booking.fields :=
  Booking.mkFields "b2" "u1" "Y" 150 ["A1"] None None.

(** A booking whose payment was recorded by setting [isPaid] to [true]. *)
Definition b1_paid_fields : Booking.fields :=
  Booking.mkFields "b1" "u1" "X" 400 ["A1"; "A2"] (Some (Js.Bool true)) None.

Definition world_of (bs : list Booking.doc) : World :=
  mkWorld [] [showX; showY] bs [] 0 [].

(** The ledger after [b1] was created at time 1000 and [b2] at 2000. *)
Definition w_created : World :=
  world_of (Booking.create 2000 b2_fields (Booking.create 1000 b1_fields [])).

Definition w_paid : World :=
  world_of (Booking.create 1000 b1_paid_fields []).

(** A Booking created with [isPaid: null]: the schema keeps the [null],
    the one falsy value it stores at this path. *)
Definition b1_unpaid : Booking.doc :=
  Booking.new Booking.bookingSchema 1000
    (Booking.mkFields "b1" "u1" "X" 400 ["A1"; "A2"] (Some Js.Null) None).

Definition w_unpaid : World := world_of [b1_unpaid].

(** [sid] is the Show that the booking [bookingId] refers to. *)
Definition owning_show (w : World) (bookingId sid : string) : Prop :=
  ∃ b, Booking.findById bookingId (bookings w) = Some b ∧ Booking.show b = sid.

(** [seat] of Show [sid] is one of the seats of the booking [bookingId]. *)
Definition booked_seat (w : World) (bookingId sid seat : string) : Prop :=
  ∃ b, Booking.findById bookingId (bookings w) = Some b
       ∧ Booking.show b = sid ∧ seat ∈ Booking.bookedSeats b.

(** The validation of [addShow] in the spec's words: the movie
    reference is missing, the time-slot list is missing or empty, or the
    price is missing. *)
Definition fields_missing (req : AddShowBody) : Prop :=
  movieId req = None ∨ showsInput req = None ∨ showsInput req = Some []
  ∨ showPrice req = None.

(** What the guard of [addShow] rejects: as above, and also a movie
    reference that is the empty string and a price that is zero. *)
Definition fields_falsy (req : AddShowBody) : Prop :=
  movieId req = None ∨ movieId req = Some ""
  ∨ showsInput req = None ∨ showsInput req = Some []
  ∨ showPrice req = None ∨ showPrice req = Some 0.

(** The (date, time) pairs a request supplies, in order. *)
Definition supplied_pairs (slots : list ShowInput) : list (string * string) :=
  slots ≫= (λ show,
    match time show with
    | Times ts => (λ t, (date show, t)) <$> ts
    | OneTime t => [(date show, t)]
    end).

(** A request with every field present and a price of zero. *)
Definition zero_price_req : AddShowBody :=
  mkAddShowBody (Some "m1") (Some [mkShowInput "2025-07-01" (Times ["10:00"])]) (Some 0).

(** A request for two dates, one with two times and one with a single
    time string. *)
Definition two_dates_req : AddShowBody :=
  mkAddShowBody (Some "m1")
    (Some [mkShowInput "2025-07-01" (Times ["10:00"; "18:30"]);
           mkShowInput "2025-07-02" (OneTime "21:00")])
    (Some 200).

Definition movie_m1 : Movie.doc :=
  Movie.mk "m1" "Heat" "" "" "" [] [] "1995-12-15" "en" "" 83 170.

Definition movie_m2 : Movie.doc :=
  Movie.mk "m2" "Ran" "" "" "" [] [] "1985-06-01" "ja" "" 82 162.

Definition w_catalog : World :=
  mkWorld [movie_m1; movie_m2] [] [] [] 0 [].

(** Stand-ins for the environment in the worked examples.  The sample
    clock reads the digits of a date-time string as one number and takes
    a string for a date when it has the twelve digits of
    yyyy-mm-ddTHH:MM. *)
Fixpoint read_digits (s : string) (acc : Z) : Z :=
  match s with
  | EmptyString => acc
  | String c s' =>
      let n := Z.of_nat (Ascii.nat_of_ascii c) in
      if (48 <=? n) && (n <=? 57)
      then read_digits s' (acc * 10 + (n - 48))
      else read_digits s' acc
  end.

Fixpoint count_digits (s : string) : nat :=
  match s with
  | EmptyString => O
  | String c s' =>
      let n := Z.of_nat (Ascii.nat_of_ascii c) in
      if (48 <=? n) && (n <=? 57) then S (count_digits s') else count_digits s'
  end.

Definition sample_Date_new (s : string) : option Z :=
  if (count_digits s =? 12)%nat then Some (read_digits s 0) else None.

(** When both requests reject, the details rejection arrives first. *)
Definition details_first (id : string) : bool := false.

(** The message of the error [insertMany] rejects with. *)
Definition sample_rejection : string := "Show validation failed".

Definition sample_ObjectId (n : nat) : string :=
  "oid" +:+ String (Ascii.ascii_of_nat (48 + n)) "".
Definition tmdb_down {R} (id : string) (n : nat) : AxiosError + R :=
  inl (mkAxiosError ECONNRESET "socket hang up").

(** The upcoming Shows in the order the query returns them. *)
Definition upcoming (now : Z) (w : World) : list Show.doc :=
  sort_by showDateTime_asc (filter (λ s, now ≤ Show.showDateTime s) (shows w)).

(** One per distinct movie, first occurrence: walking [l] in order, keep
    a Show when its movie resolves and no kept Show before it has the
    same movie. *)
Fixpoint first_occurrences (w : World) (seen : list string) (l : list Show.doc)
  : list Show.doc :=
  match l with
  | [] => []
  | s :: l' =>
      match Movie.findById (Show.movie s) (movies w) with
      | Some _ =>
          if bool_decide (Show.movie s ∈ seen)
          then first_occurrences w seen l'
          else s :: first_occurrences w (seen ++ [Show.movie s]) l'
      | None => first_occurrences w seen l'
      end
  end.

Definition by_start_time (a b : Show.doc) : Prop :=
  Show.showDateTime a ≤ Show.showDateTime b.

(** Three upcoming Shows of two movies, stored out of order, and one
    Show in the past. *)
Definition w_listing : World :=
  mkWorld [movie_m1; movie_m2]
    [ Show.mk "s1" "m1" 9000 200 ∅;
      Show.mk "s2" "m2" 7000 150 ∅;
      Show.mk "s3" "m1" 6000 200 ∅;
      Show.mk "s4" "m2" 1000 150 ∅ ]
    [] [] 4 [].

(** [listUpcomingShows] in the spec's words: of the Shows with start
    time at or after [now], in ascending start-time order, one per
    distinct movie, the first occurrence. *)
Fixpoint one_per_movie (seen : list string) (l : list Show.doc) : list Show.doc :=
  match l with
  | [] => []
  | s :: l' =>
      if bool_decide (Show.movie s ∈ seen)
      then one_per_movie seen l'
      else s :: one_per_movie (seen ++ [Show.movie s]) l'
  end.

Definition listUpcomingShows_spec (now : Z) (w : World) : list Show.doc :=
  one_per_movie [] (upcoming now w).

(** Two upcoming Shows of two movies; no Movie is stored for the
    reference of the first. *)
Definition w_dangling : World :=
  mkWorld [movie_m1]
    [ Show.mk "s1" "m9" 6000 120 ∅;
      Show.mk "s2" "m1" 7000 200 ∅ ]
    [] [] 2 [].

(** One catalogue, two different programmes for its movie. *)
Definition w_early : World :=
  mkWorld [movie_m1] [Show.mk "s1" "m1" 6000 200 ∅] [] [] 1 [].

Definition w_late : World :=
  mkWorld [movie_m1] [Show.mk "s7" "m1" 9000 350 ∅] [] [] 1 [].

(** ** Further sample data *)

(** An unpaid booking ([isPaid: null]) whose Show is not stored. *)
Definition b3_orphan : Booking.doc :=
  Booking.new Booking.bookingSchema 3000
    (Booking.mkFields "b3" "u2" "Z" 300 ["C1"] (Some Js.Null) None).

Definition w_orphan : World := world_of [b1_unpaid; b3_orphan].

(** The ledger built by a sequence of [Booking.create] calls, oldest
    first, each with its clock reading. *)
Definition ledger_of (calls : list (Z * Booking.fields)) : list Booking.doc :=
  foldl (λ c call, Booking.create call.1 call.2 c) [] calls.

(** ** makeRequestWithRetry: the waits between attempts *)

(** The delays [makeRequestWithRetry] sleeps, in order, in milliseconds:
    after a retryable failure [retries] is incremented and the loop
    waits [initialDelay * 2 ^ (retries - 1)] with [initialDelay = 500],
    also after the last attempt.  Same loop as [retry_loop]. *)
Fixpoint retry_waits {R} (get : nat → AxiosError + R) (retries fuel : nat) : list Z :=
  match fuel with
  | O => []
  | S fuel' =>
      match get retries with
      | inr _ => []
      | inl error =>
          if retryable (code error)
          then 500 * 2 ^ Z.of_nat retries :: retry_waits get (S retries) fuel'
          else []
      end
  end.

Definition makeRequestWithRetry_waits {R} (get : nat → AxiosError + R) : list Z :=
  retry_waits get 0 6.

(** Attempt [n] of [get] failed with a retryable code. *)
Definition retryable_failure {R} (get : nat → AxiosError + R) (n : nat) : Prop :=
  ∃ error, get n = inl error ∧ retryable (code error) = true.

Definition sum_Z (l : list Z) : Z := foldr Z.add 0 l.

(** A TMDB endpoint that resets twice and then answers. *)
Definition flaky {R} (answer : R) (n : nat) : AxiosError + R :=
  if (n <? 2)%nat then inl (mkAxiosError ECONNRESET "socket hang up")
  else inr answer.

(** A TMDB endpoint that times out once and then refuses the API key. *)
Definition unauthorized_after_timeout {R} (n : nat) : AxiosError + R :=
  if (n <? 1)%nat then inl (mkAxiosError ETIMEDOUT "timeout of 0ms exceeded")
  else inl (mkAxiosError OtherCode "Request failed with status code 401").

(** ** Show ids *)

(** Every stored Show carries an ObjectId that the counter has already
    handed out. *)
Definition show_ids_issued (ObjectId : nat → string) (w : World) : Prop :=
  Forall (λ s, ∃ k, (k < next_oid w)%nat ∧ Show._id s = ObjectId k) (shows w).

(** A request for a movie that is not stored yet. *)
Definition new_movie_req : AddShowBody :=
  mkAddShowBody (Some "m9") (Some [mkShowInput "2025-07-01" (OneTime "10:00")])
    (Some 200).

Definition api_m9 : MovieApiData :=
  mkMovieApiData "Stalker" "" "" "" [] "1979-05-25" "ru" None 81 162.

(** The credits endpoint answers 404 to the first attempt. *)
Definition not_found_at_once {R} (id : string) (n : nat) : AxiosError + R :=
  inl (mkAxiosError OtherCode "Request failed with status code 404").

(** When both requests reject, the credits rejection arrives first. *)
Definition credits_first (id : string) : bool := true.

(** TMDB answering for every movie, at the first attempt. *)
Definition tmdb_up (id : string) (n : nat) : AxiosError + MovieApiData := inr api_m9.
Definition tmdb_cast_up (id : string) (n : nat) : AxiosError + list string :=
  inr ["Kaidanovsky"].

(** The catalog after one show was added through [sample_ObjectId]. *)
Definition w_one_show : World :=
  mkWorld [movie_m1; movie_m2] [Show.mk "oid0" "m2" 202506010900 150 ∅] [] [] 1 [].

(** An ObjectId generator that never repeats. *)
Fixpoint ticks (n : nat) : string :=
  match n with
  | O => ""
  | S n' => "x" +:+ ticks n'
  end.

Definition unary_ObjectId (n : nat) : string := "oid" +:+ ticks n.

Definition w_unary : World :=
  mkWorld [movie_m1; movie_m2] [Show.mk "oid" "m2" 202506010900 150 ∅] [] [] 1 [].

(** ** controllers/showController.js: getShow *)

(** One element of a date's list: [{ time, showId }]. *)
Record TimeEntry : Type := mkTimeEntry {
  te_time : string;
  te_showId : string
}.

Inductive detail_body : Type :=
| DetailMessage (success : bool) (message : string)
| Detail (success : bool) (movie : Movie.doc) (dateTime : gmap string (list TimeEntry)).

Record DetailResponse : Type := mkDetailResponse {
  d_status : Z;
  d_json : detail_body
}.

(** [Show.find({ movie: movieId, showDateTime: { $gte: new Date() } })
      .sort({ showDateTime: 1 })] *)
Definition Show_find_movie_upcoming (now : Z) (movieId : string) : M (list Show.doc) :=
  λ w, (inr (sort_by showDateTime_asc
               (filter (λ s, Show.movie s = movieId ∧ now ≤ Show.showDateTime s)
                       (shows w))), w).

Section ShowDetail.

(** The two pieces [getShow] cuts out of [showDateTime.toISOString()]:
    the part before the [T], and the first five characters after it. *)
Variable iso_date : Z → string.
Variable iso_time : Z → string.
(** [a.localeCompare(b) <= 0] on two such time strings. *)
Variable localeCompare_le : string → string → bool.

Definition time_entry (show : Show.doc) : TimeEntry :=
  mkTimeEntry (iso_time (Show.showDateTime show)) (Show._id show).

(** The [forEach] that fills the [dateTime] object: create the date's
    array when the key is absent, then push. *)
Definition group_by_date (shows : list Show.doc) : gmap string (list TimeEntry) :=
  foldl (λ dateTime show,
           let date := iso_date (Show.showDateTime show) in
           <[date := default [] (dateTime !! date) ++ [time_entry show]]> dateTime)
        ∅ shows.

Definition by_time (a b : TimeEntry) : bool :=
  localeCompare_le (te_time a) (te_time b).

Definition getShow (now : Z) (movieId : string) : M DetailResponse :=
  try_catch
    (shows ← Show_find_movie_upcoming now movieId;
     movie ← Movie_findById movieId;
     match movie with
     | None => mret (mkDetailResponse 404 (DetailMessage false "Movie not found."))
     | Some m =>
         let dateTime := sort_by by_time <$> group_by_date shows in
         mret (mkDetailResponse 200 (Detail true m dateTime))
     end)
    (λ error, mret (mkDetailResponse 500 (DetailMessage false (exn_message error)))).

End ShowDetail.

(** The upcoming Shows of [movieId] on the calendar date [date]. *)
Definition shows_on (iso_date : Z → string) (now : Z) (movieId date : string)
    (w : World) : list Show.doc :=
  filter (λ s, (Show.movie s = movieId ∧ now ≤ Show.showDateTime s)
               ∧ iso_date (Show.showDateTime s) = date)
         (shows w).

(** A sample calendar for start times written as yyyymmddHHMM numbers. *)
Definition sample_iso_date (t : Z) : string :=
  if t <? 202507020000 then "2025-07-01" else "2025-07-02".

Definition sample_iso_time (t : Z) : string :=
  if t mod 10000 =? 1000 then "10:00"
  else if t mod 10000 =? 1830 then "18:30" else "21:00".

Definition w_times : World :=
  mkWorld [movie_m1; movie_m2]
    [ Show.mk "s1" "m1" 202507011830 200 ∅;
      Show.mk "s2" "m2" 202507011000 150 ∅;
      Show.mk "s3" "m1" 202507022100 200 ∅;
      Show.mk "s4" "m1" 202507011000 200 ∅;
      Show.mk "s5" "m1" 202401011000 200 ∅;
      Show.mk "s6" "m7" 202507011000 200 ∅ ]
    [] [] 6 [].

(** ** server.js: the Express application *)

Inductive Method : Type := GET | POST | PUT | DELETE.

(** What a matching layer hands the request to. *)
Inductive Target : Type :=
| ServerIsLive            (* [(req, res) => res.send("Server is Live!")] *)
| InngestServe            (* [serve({ client: inngest, functions })] *)
| showRouter
| bookingRouter
| adminRouter
| userRouter.

Inductive Layer : Type :=
| AppGet (path : string) (target : Target)      (* [app.get(path, ...)] *)
| AppUse (path : string) (target : Target).     (* [app.use(path, ...)] *)

(** The routed layers of [server.js], in registration order.  The three
    [app.use(middleware)] calls before them pass every request on. *)
Definition app : list Layer :=
  [ AppGet "/" ServerIsLive;
    AppUse "/api/inngest" InngestServe;
    AppUse "/api/show" showRouter;
    AppUse "api/booking" bookingRouter;
    AppUse "/api/admin" adminRouter;
    AppUse "/api/user" userRouter ].

(** Express compares paths without regard to case. *)
Definition to_lower (c : Ascii.ascii) : Ascii.ascii :=
  let n := Ascii.nat_of_ascii c in
  if (65 <=? n)%nat && (n <=? 90)%nat then Ascii.ascii_of_nat (n + 32) else c.

Fixpoint strip_prefix (p s : string) : option string :=
  match p with
  | EmptyString => Some s
  | String a p' =>
      match s with
      | String b s' =>
          if Ascii.eqb (to_lower a) (to_lower b) then strip_prefix p' s' else None
      | EmptyString => None
      end
  end.

Definition slash : Ascii.ascii := Ascii.ascii_of_nat 47.

(** A route path loses one trailing slash before it is compiled. *)
Fixpoint trim_slash (p : string) : string :=
  match p with
  | EmptyString => EmptyString
  | String c EmptyString => if Ascii.eqb c slash then EmptyString else p
  | String c p' => String c (trim_slash p')
  end.

(** [app.use(path, ...)]: the request path starts with [path], and the
    match ends at the end of the request path or before a slash. *)
Definition use_matches (path req_path : string) : bool :=
  match strip_prefix (trim_slash path) req_path with
  | Some EmptyString => true
  | Some (String c _) => Ascii.eqb c slash
  | None => false
  end.

(** [app.get(path, ...)]: the method is GET and the whole request path is
    [path], up to one trailing slash. *)
Definition get_matches (path : string) (m : Method) (req_path : string) : bool :=
  match m with
  | GET =>
      match strip_prefix (trim_slash path) req_path with
      | Some EmptyString => true
      | Some (String c EmptyString) => Ascii.eqb c slash
      | _ => false
      end
  | _ => false
  end.

Definition layer_matches (m : Method) (req_path : string) (l : Layer) : bool :=
  match l with
  | AppGet path _ => get_matches path m req_path
  | AppUse path _ => use_matches path req_path
  end.

Definition layer_target (l : Layer) : Target :=
  match l with
  | AppGet _ t => t
  | AppUse _ t => t
  end.

(** The targets a request can reach, in the order Express tries them. *)
Definition dispatch (m : Method) (req_path : string) : list Target :=
  layer_target <$> filter (λ l, layer_matches m req_path l = true) app.

(** ** inngest/index.js: the Clerk user sync and the new-show mail *)

Module User.

(** The document the sync functions write: [_id], [email], [name],
    [image]. *)
Record doc : Type := mk {
  _id : string;
  email : string;
  name : string;
  image : string
}.

Fixpoint findById (id : string) (c : list doc) : option doc :=
  match c with
  | [] => None
  | d :: c' => if String.eqb (_id d) id then Some d else findById id c'
  end.

Fixpoint findByIdAndDelete (id : string) (c : list doc) : list doc :=
  match c with
  | [] => []
  | d :: c' => if String.eqb (_id d) id then c' else d :: findByIdAndDelete id c'
  end.

(** [findByIdAndUpdate(id, update)]: the first document with this [_id]
    takes the new fields; without one nothing is written (no upsert). *)
Fixpoint findByIdAndUpdate (id : string) (update : doc) (c : list doc) : list doc :=
  match c with
  | [] => []
  | d :: c' =>
      if String.eqb (_id d) id then update :: c'
      else d :: findByIdAndUpdate id update c'
  end.

(** [User.create]: MongoDB refuses a second document with the same
    [_id]. *)
Definition create (d : doc) (c : list doc) : (Js.exn + unit) * list doc :=
  match findById (_id d) c with
  | Some _ => (inl (Js.Error "E11000 duplicate key error"), c)
  | None => (inr tt, c ++ [d])
  end.

End User.

Module Clerk.

(** [event.data] of the three [clerk/user.*] events.  Clerk sends [null]
    for a name the user did not give. *)
Record user : Type := mk {
  id : string;
  first_name : option string;
  last_name : option string;
  email_addresses : list string;      (* the [email_address] of each entry *)
  image_url : string
}.

End Clerk.

(** String concatenation turns [null] into the text ["null"]. *)
Definition to_text (o : option string) : string := default "null" o.

(** The [userData] object; reading [email_addresses[0].email_address]
    throws when the array is empty. *)
Definition userData (data : Clerk.user) : Js.exn + User.doc :=
  match Clerk.email_addresses data with
  | [] => inl Js.TypeError
  | address :: _ =>
      inr (User.mk (Clerk.id data) address
             (to_text (Clerk.first_name data) +:+ " "
                +:+ to_text (Clerk.last_name data))
             (Clerk.image_url data))
  end.

Definition syncUserCreation (data : Clerk.user) (users : list User.doc)
  : (Js.exn + unit) * list User.doc :=
  match userData data with
  | inl e => (inl e, users)
  | inr d => User.create d users
  end.

Definition syncUserDeletion (data : Clerk.user) (users : list User.doc)
  : (Js.exn + unit) * list User.doc :=
  (inr tt, User.findByIdAndDelete (Clerk.id data) users).

Definition syncUserUpdation (data : Clerk.user) (users : list User.doc)
  : (Js.exn + unit) * list User.doc :=
  match userData data with
  | inl e => (inl e, users)
  | inr d => (inr tt, User.findByIdAndUpdate (Clerk.id data) d users)
  end.

Module Mailer.

(** The argument of [sendEmail]. *)
Record email : Type := mk {
  to : string;
  subject : string;
  body : string
}.

End Mailer.

Abbreviation Email := Mailer.email.

Definition quote : string := String (Ascii.ascii_of_nat 34) "".

(** The nine bytes with which the subject template opens in the source
    file (a clapper-board emoji that went through a wrong decoding). *)
Definition clapper : string :=
  String.string_of_list_ascii
    (Ascii.ascii_of_nat <$> [239; 163; 191; 195; 188; 195; 169; 194; 168]%nat).

Definition new_show_mail (movieTitle : string) (user : User.doc) : Email :=
  Mailer.mk (User.email user)
    (clapper +:+ " New Show Added: " +:+ movieTitle)
    ("<div style=" +:+ quote +:+ "font-family: Arial, sans-serif; padding: 20px"
       +:+ quote +:+ ">
        <h2>Hi " +:+ User.name user +:+ ", </h2>
        <p>We've just added a new show to our library:</p>
        <h3 style=" +:+ quote +:+ "color: #F84565;" +:+ quote +:+ ">"
       +:+ quote +:+ movieTitle +:+ quote +:+ "</h3>
        <p>Visit our website</p>
        <br/>
        <p>Thanks, <br/>Team Get your Popcorn</p>
        </div>").

Section Mail.

(** The mail transport behind [sendEmail]: [None] when it takes the
    message, otherwise the message of the error [sendEmail] rejects
    with. *)
Variable rejects : Email → option string.

Definition sendEmail (e : Email) (outbox : list Email) : (Js.exn + unit) * list Email :=
  match rejects e with
  | None => (inr tt, outbox ++ [e])
  | Some msg => (inl (Js.Error msg), outbox)
  end.

(** [for (const user of users) { ...; await sendEmail(...) }]: the first
    rejection leaves the loop. *)
Fixpoint notify_each (movieTitle : string) (users : list User.doc)
    (outbox : list Email) : (Js.exn + unit) * list Email :=
  match users with
  | [] => (inr tt, outbox)
  | user :: users' =>
      match sendEmail (new_show_mail movieTitle user) outbox with
      | (inl e, outbox') => (inl e, outbox')
      | (inr _, outbox') => notify_each movieTitle users' outbox'
      end
  end.

(** The function registered for [app/show.added]; its result is the
    [message] it returns. *)
Definition sendNewShowNotification (movieTitle : string) (users : list User.doc)
    (outbox : list Email) : (Js.exn + string) * list Email :=
  match notify_each movieTitle users outbox with
  | (inl e, outbox') => (inl e, outbox')
  | (inr _, outbox') => (inr "Notification sent.", outbox')
  end.

End Mail.

Definition clerk_ann : Clerk.user :=
  Clerk.mk "user_1" (Some "Ann") (Some "Lee") ["ann@example.org"; "al@example.org"]
    "https://img.example.org/ann.png".

Definition clerk_bob : Clerk.user :=
  Clerk.mk "user_2" (Some "Bob") None ["bob@example.org"] "".

Definition clerk_nomail : Clerk.user :=
  Clerk.mk "user_3" (Some "Cy") (Some "Doe") [] "".

Definition user_ann : User.doc :=
  User.mk "user_1" "ann@example.org" "Ann Lee" "https://img.example.org/ann.png".

Definition user_bob : User.doc :=
  User.mk "user_2" "bob@example.org" "Bob null" "".

Definition user_cy : User.doc :=
  User.mk "user_3" "cy@example.org" "Cy Doe" "".

(** A transport that refuses Bob's address. *)
Definition refuses_bob (e : Email) : option string :=
  if String.eqb (Mailer.to e) "bob@example.org"
  then Some "550 mailbox unavailable" else None.

(** ** controllers/userController.js: favourites *)

(** What [res.json] sends from the two favourites handlers. *)
Inductive fav_body : Type :=
| FavMessage (success : bool) (message : string)
| FavMovies (success : bool) (movies : list Movie.doc).

(** Clerk's user store, as far as these handlers use it: for every user
    id the [privateMetadata.favorites] array, [None] while the key is
    undefined. *)
Abbreviation ClerkStore := (gmap string (option (list string))).

(** The array after the [includes] / [push] / [filter] step. *)
Definition toggle_favorite (movieId : string) (favorites : list string) : list string :=
  if bool_decide (movieId ∈ favorites)
  then filter (λ item, item ≠ movieId) favorites
  else favorites ++ [movieId].

Section Favorites.

(** The message of the error [clerkClient.users.getUser] rejects with
    for an unknown user. *)
Variable user_not_found : string.
(** [Movie.find({ _id: { $in: undefined } })], the query [getFavorites]
    issues while the user has no favourites array. *)
Variable find_in_undefined : list Movie.doc → Js.exn + list Movie.doc.

Definition updateFavorite (userId movieId : string) (clerk : ClerkStore)
  : fav_body * ClerkStore :=
  match clerk !! userId with
  | None => (FavMessage false user_not_found, clerk)
  | Some favorites =>
      let favorites := default [] favorites in
      (FavMessage true "Favorite added updated.",
       <[userId := Some (toggle_favorite movieId favorites)]> clerk)
  end.

Definition getFavorites (userId : string) (clerk : ClerkStore)
    (movies : list Movie.doc) : fav_body :=
  match clerk !! userId with
  | None => FavMessage false user_not_found
  | Some None =>
      match find_in_undefined movies with
      | inl error => FavMessage false (exn_message error)
      | inr found => FavMovies true found
      end
  | Some (Some favorites) =>
      FavMovies true (filter (λ m, Movie._id m ∈ favorites) movies)
  end.

End Favorites.

(** The favourites array a handler sees for a user. *)
Definition favorites_of (clerk : ClerkStore) (userId : string) : list string :=
  default [] (clerk !! userId ≫= id).

Definition clerk_sample : ClerkStore :=
  <["user_1" := Some ["m2"; "m1"]]> (<["user_2" := None]> ∅).

(** * Properties *)

(** ** Collections *)

Lemma Booking_findById_id (id : string) (c : list Booking.doc) (b : Booking.doc) :
  Booking.findById id c = Some b → Booking._id b = id.
Proof.
  induction c as [|d c IH]; simpl; [done|].
  destruct (String.eqb_spec (Booking._id d) id); [|done].
  intros [= <-]. done.
Qed.

Lemma Booking_findById_None (id : string) (c : list Booking.doc) :
  id ∉ Booking._id <$> c → Booking.findById id c = None.
Proof.
  induction c as [|d c IH]; simpl; [done|].
  rewrite not_elem_of_cons. intros [Hne Hnin].
  destruct (String.eqb_spec (Booking._id d) id); [congruence|auto].
Qed.

Lemma Booking_deleted_gone (id : string) (c : list Booking.doc) :
  NoDup (Booking._id <$> c) →
  Booking.findById id (Booking.findByIdAndDelete id c) = None.
Proof.
  induction c as [|d c IH]; simpl; [done|].
  rewrite NoDup_cons. intros [Hnin Hnd].
  destruct (String.eqb_spec (Booking._id d) id) as [<-|Hne].
  - by apply Booking_findById_None.
  - simpl. destruct (String.eqb_spec (Booking._id d) id); [done|auto].
Qed.

Lemma Booking_delete_other (id id' : string) (c : list Booking.doc) :
  id' ≠ id →
  Booking.findById id' (Booking.findByIdAndDelete id c) = Booking.findById id' c.
Proof.
  intros Hne. induction c as [|d c IH]; simpl; [done|].
  destruct (String.eqb_spec (Booking._id d) id) as [Hd|Hd].
  - destruct (String.eqb_spec (Booking._id d) id'); [congruence|done].
  - simpl. by rewrite IH.
Qed.

Lemma Show_findById_save (sid : string) (s : Show.doc) (c : list Show.doc) :
  Show.findById sid (Show.save s c) =
  if String.eqb sid (Show._id s)
  then Show.set_occupiedSeats (Show.occupiedSeats s) <$> Show.findById sid c
  else Show.findById sid c.
Proof.
  unfold Show.save.
  induction c as [|d c IH]; simpl.
  - by destruct (String.eqb sid (Show._id s)).
  - destruct (String.eqb_spec (Show._id d) (Show._id s)) as [Hd|Hd]; simpl.
    + destruct (String.eqb_spec (Show._id d) sid) as [Hs|Hs].
      * subst sid. rewrite Hd, String.eqb_refl. done.
      * apply IH.
    + destruct (String.eqb_spec (Show._id d) sid) as [Hs|Hs].
      * subst sid. destruct (String.eqb_spec (Show._id d) (Show._id s)); done.
      * apply IH.
Qed.

Lemma Show_findById_id (id : string) (c : list Show.doc) (s : Show.doc) :
  Show.findById id c = Some s → Show._id s = id.
Proof.
  induction c as [|d c IH]; simpl; [done|].
  destruct (String.eqb_spec (Show._id d) id); [|done].
  intros [= <-]. done.
Qed.


Lemma Show_save_static (s : Show.doc) (c : list Show.doc) :
  Show_static <$> Show.save s c = Show_static <$> c.
Proof.
  unfold Show.save. rewrite <- list_fmap_compose.
  apply list_fmap_ext. intros i d _. simpl.
  by destruct (String.eqb (Show._id d) (Show._id s)).
Qed.

(** ** Seat release *)

Lemma release_seats_cons (seat : string) (seats : list string)
    (occ : gmap string string) :
  release_seats (seat :: seats) occ = release_seats seats (delete seat occ).
Proof. done. Qed.

Lemma release_seats_lookup (seats : list string) (occ : gmap string string)
    (k : string) :
  release_seats seats occ !! k = if decide (k ∈ seats) then None else occ !! k.
Proof.
  revert occ. induction seats as [|a seats IH]; intros occ.
  - destruct (decide (k ∈ [])) as [Hin|_]; [|done].
    by apply elem_of_nil in Hin.
  - rewrite release_seats_cons, IH.
    destruct (decide (k ∈ seats)) as [Hin|Hnin];
      destruct (decide (k ∈ a :: seats)) as [Hin'|Hnin']; try done.
    + exfalso. apply Hnin'. by right.
    + apply elem_of_cons in Hin' as [->|Hin']; [apply lookup_delete_eq|done].
    + apply lookup_delete_ne. intros ->. apply Hnin'. by left.
Qed.

(** ** The deferred release job, one lemma per path *)

Lemma job_booking_missing (w : World) (bookingId : string) :
  Booking.findById bookingId (bookings w) = None →
  releaseSeatsAndDeleteBooking bookingId w = (inl Js.TypeError, w).
Proof.
  intros H. unfold releaseSeatsAndDeleteBooking, check_payment_status.
  unfold mbind, M_bind, bind, Booking_findById. by rewrite H.
Qed.

Lemma job_paid (w : World) (bookingId : string) (b : Booking.doc) :
  Booking.findById bookingId (bookings w) = Some b →
  Js.truthy (Booking.isPaid b) = true →
  releaseSeatsAndDeleteBooking bookingId w = (inr tt, w).
Proof.
  intros H Hp. unfold releaseSeatsAndDeleteBooking, check_payment_status.
  unfold mbind, M_bind, bind, Booking_findById. rewrite H. simpl.
  by rewrite Hp.
Qed.

Lemma job_show_missing (w : World) (bookingId : string) (b : Booking.doc) :
  Booking.findById bookingId (bookings w) = Some b →
  Js.truthy (Booking.isPaid b) = false →
  Show.findById (Booking.show b) (shows w) = None →
  releaseSeatsAndDeleteBooking bookingId w = (inl Js.TypeError, w).
Proof.
  intros H Hp Hs. unfold releaseSeatsAndDeleteBooking, check_payment_status.
  unfold mbind, M_bind, bind, Booking_findById. rewrite H. simpl.
  rewrite Hp. simpl. unfold Show_findById. by rewrite Hs.
Qed.

Lemma job_unpaid (w : World) (bookingId : string) (b : Booking.doc) (s : Show.doc) :
  Booking.findById bookingId (bookings w) = Some b →
  Js.truthy (Booking.isPaid b) = false →
  Show.findById (Booking.show b) (shows w) = Some s →
  let s' := Show.set_occupiedSeats
              (release_seats (Booking.bookedSeats b) (Show.occupiedSeats s)) s in
  releaseSeatsAndDeleteBooking bookingId w =
  (inr tt,
   mkWorld (movies w) (Show.save s' (shows w))
           (Booking.findByIdAndDelete bookingId (bookings w))
           ((oplog w ++ [ShowSave (Booking.show b) (Show.occupiedSeats s')])
              ++ [BookingDelete bookingId])
           (next_oid w) (sent w)).
Proof.
  intros H Hp Hs s'. unfold releaseSeatsAndDeleteBooking, check_payment_status.
  unfold mbind, M_bind, bind, Booking_findById. rewrite H. simpl.
  rewrite Hp. simpl. unfold Show_findById. rewrite Hs. simpl.
  rewrite (Booking_findById_id _ _ _ H).
  by rewrite (Show_findById_id _ _ _ Hs).
Qed.

(** Every path of the job, in one statement. *)
Lemma job_cases (w : World) (bookingId : string) :
  releaseSeatsAndDeleteBooking bookingId w = (inl Js.TypeError, w)
  ∨ releaseSeatsAndDeleteBooking bookingId w = (inr tt, w)
  ∨ ∃ b s,
      Booking.findById bookingId (bookings w) = Some b
      ∧ Show.findById (Booking.show b) (shows w) = Some s
      ∧ releaseSeatsAndDeleteBooking bookingId w =
        (inr tt,
         mkWorld (movies w)
                 (Show.save
                    (Show.set_occupiedSeats
                       (release_seats (Booking.bookedSeats b) (Show.occupiedSeats s)) s)
                    (shows w))
                 (Booking.findByIdAndDelete bookingId (bookings w))
                 ((oplog w ++ [ShowSave (Booking.show b)
                                 (release_seats (Booking.bookedSeats b)
                                    (Show.occupiedSeats s))])
                    ++ [BookingDelete bookingId])
                 (next_oid w) (sent w)).
Proof.
  destruct (Booking.findById bookingId (bookings w)) as [b|] eqn:Hb.
  - destruct (Js.truthy (Booking.isPaid b)) eqn:Hp.
    + right; left. by eapply job_paid.
    + destruct (Show.findById (Booking.show b) (shows w)) as [s|] eqn:Hs.
      * right; right. exists b, s. split_and!; try done.
        by apply (job_unpaid w bookingId b s).
      * left. by eapply job_show_missing.
  - left. by apply job_booking_missing.
Qed.

(** ** Claims about the deferred release job *)

(** C1.  The claim: for a booking id whose Booking no longer exists the
    job is a no-op that returns without error.  The code instead reads
    [booking.isPaid] off [null]: the step throws a [TypeError].  The
    stored Shows and Bookings are indeed left as they were. *)
Theorem missing_booking_throws (w : World) (bookingId : string) :
  Booking.findById bookingId (bookings w) = None →
  (releaseSeatsAndDeleteBooking bookingId w).1 = inl Js.TypeError
  ∧ (releaseSeatsAndDeleteBooking bookingId w).2 = w.
Proof. intros H. by rewrite job_booking_missing. Qed.

Lemma missing_booking_throws_witness :
  Booking.findById "b404" (bookings w_created) = None
  ∧ (releaseSeatsAndDeleteBooking "b404" w_created).1 = inl Js.TypeError
  ∧ (releaseSeatsAndDeleteBooking "b404" w_created).2 = w_created.
Proof.
  split; [reflexivity|].
  apply (missing_booking_throws w_created "b404"). reflexivity.
Defined.

(** C2.  For a booking whose [isPaid] is true when the job runs (any
    truthy stored value: [true], or the [[true]] that [bookingSchema]
    stores), the job is a no-op: it returns normally, the Booking is
    still there with the same [isPaid], and each of its seats keeps its
    holder in the owning Show. *)
Theorem paid_booking_is_kept (w : World) (bookingId : string) (b : Booking.doc) :
  Booking.findById bookingId (bookings w) = Some b →
  Js.truthy (Booking.isPaid b) = true →
  let w' := (releaseSeatsAndDeleteBooking bookingId w).2 in
  (releaseSeatsAndDeleteBooking bookingId w).1 = inr tt
  ∧ w' = w
  ∧ Booking.findById bookingId (bookings w') = Some b
  ∧ ∀ seat, seat ∈ Booking.bookedSeats b →
            holder w' (Booking.show b) seat = holder w (Booking.show b) seat.
Proof.
  intros H Hp. simpl. rewrite (job_paid w bookingId b H Hp). done.
Qed.

Lemma paid_booking_is_kept_witness :
  let b := Booking.new Booking.bookingSchema 1000 b1_paid_fields in
  let w' := (releaseSeatsAndDeleteBooking "b1" w_paid).2 in
  Booking.findById "b1" (bookings w_paid) = Some b
  ∧ Js.truthy (Booking.isPaid b) = true
  ∧ (releaseSeatsAndDeleteBooking "b1" w_paid).1 = inr tt
  ∧ w' = w_paid
  ∧ Booking.findById "b1" (bookings w') = Some b
  ∧ ∀ seat, seat ∈ Booking.bookedSeats b →
            holder w' (Booking.show b) seat = holder w_paid (Booking.show b) seat.
Proof.
  split; [reflexivity|]. split; [reflexivity|].
  apply (paid_booking_is_kept w_paid "b1"); reflexivity.
Defined.

(** The release path.  For an existing booking whose stored [isPaid] is
    falsy and whose Show exists, the job returns normally, no seat of
    the booking is left in the Show's [occupiedSeats], the Booking is
    gone, and the two writes reach the database in this order: the Show
    is saved with the released map, then the Booking is deleted.
    Booking ids are unique, as MongoDB keeps [_id].  Under
    [bookingSchema] the only falsy value the path stores is [null]. *)
Theorem unpaid_booking_released (w : World) (bookingId : string)
    (b : Booking.doc) (s : Show.doc) :
  NoDup (Booking._id <$> bookings w) →
  Booking.findById bookingId (bookings w) = Some b →
  Js.truthy (Booking.isPaid b) = false →
  Show.findById (Booking.show b) (shows w) = Some s →
  let w' := (releaseSeatsAndDeleteBooking bookingId w).2 in
  let released := release_seats (Booking.bookedSeats b) (Show.occupiedSeats s) in
  (releaseSeatsAndDeleteBooking bookingId w).1 = inr tt
  ∧ Show.findById (Booking.show b) (shows w')
    = Some (Show.set_occupiedSeats released s)
  ∧ (∀ seat, seat ∈ Booking.bookedSeats b → holder w' (Booking.show b) seat = None)
  ∧ Booking.findById bookingId (bookings w') = None
  ∧ oplog w' = oplog w ++ [ShowSave (Booking.show b) released; BookingDelete bookingId].
Proof.
  intros Hnd Hb Hp Hs. simpl.
  rewrite (job_unpaid w bookingId b s Hb Hp Hs). simpl.
  assert (Hfind : Show.findById (Booking.show b)
            (Show.save (Show.set_occupiedSeats
               (release_seats (Booking.bookedSeats b) (Show.occupiedSeats s)) s)
               (shows w))
          = Some (Show.set_occupiedSeats
               (release_seats (Booking.bookedSeats b) (Show.occupiedSeats s)) s)).
  { rewrite Show_findById_save. simpl.
    rewrite (Show_findById_id _ _ _ Hs), String.eqb_refl, Hs. done. }
  split_and!.
  - done.
  - done.
  - intros seat Hin. unfold holder. simpl. rewrite Hfind. simpl.
    rewrite release_seats_lookup. by rewrite decide_True.
  - by apply Booking_deleted_gone.
  - by rewrite <- app_assoc.
Qed.

Lemma unpaid_booking_released_witness :
  let w' := (releaseSeatsAndDeleteBooking "b1" w_unpaid).2 in
  let released := release_seats ["A1"; "A2"] (Show.occupiedSeats showX) in
  NoDup (Booking._id <$> bookings w_unpaid)
  ∧ Booking.findById "b1" (bookings w_unpaid) = Some b1_unpaid
  ∧ Js.truthy (Booking.isPaid b1_unpaid) = false
  ∧ Show.findById "X" (shows w_unpaid) = Some showX
  ∧ (releaseSeatsAndDeleteBooking "b1" w_unpaid).1 = inr tt
  ∧ Show.findById "X" (shows w') = Some (Show.set_occupiedSeats released showX)
  ∧ (∀ seat, seat ∈ ["A1"; "A2"] → holder w' "X" seat = None)
  ∧ Booking.findById "b1" (bookings w') = None
  ∧ oplog w' = [ShowSave "X" released; BookingDelete "b1"].
Proof.
  assert (Hnd : NoDup (Booking._id <$> bookings w_unpaid)).
  { simpl. apply NoDup_singleton. }
  split; [exact Hnd|]. split; [reflexivity|]. split; [reflexivity|].
  split; [reflexivity|].
  apply (unpaid_booking_released w_unpaid "b1" b1_unpaid showX Hnd);
    reflexivity.
Defined.

(** C10.  The job changes nothing but the entries of the owning Show's
    [occupiedSeats] whose keys are seats of the expiring booking: every
    other seat of every Show keeps its holder (or stays free), every Show
    other than the owning one is the same document as before, and no Show
    appears, disappears or changes its movie, time or price. *)
Theorem release_touches_only_booked_seats (w : World) (bookingId sid seat : string) :
  let w' := (releaseSeatsAndDeleteBooking bookingId w).2 in
  (¬ booked_seat w bookingId sid seat → holder w' sid seat = holder w sid seat)
  ∧ (¬ owning_show w bookingId sid →
     Show.findById sid (shows w') = Show.findById sid (shows w))
  ∧ Show_static <$> shows w' = Show_static <$> shows w.
Proof.
  simpl.
  destruct (job_cases w bookingId) as [E|[E|(b & s & Hb & Hs & E)]];
    rewrite E; simpl; try done.
  assert (Hid : Show._id s = Booking.show b) by by apply Show_findById_id in Hs.
  split_and!.
  - intros Hnb. unfold holder. simpl. rewrite Show_findById_save. simpl.
    rewrite Hid. destruct (String.eqb_spec sid (Booking.show b)) as [->|Hne]; [|done].
    rewrite Hs. simpl. rewrite release_seats_lookup.
    destruct (decide (seat ∈ Booking.bookedSeats b)) as [Hin|Hnin]; [|done].
    exfalso. apply Hnb. by exists b.
  - intros Hno. rewrite Show_findById_save. simpl. rewrite Hid.
    destruct (String.eqb_spec sid (Booking.show b)) as [->|Hne]; [|done].
    exfalso. apply Hno. by exists b.
  - apply Show_save_static.
Qed.

Lemma release_touches_only_booked_seats_witness :
  ¬ booked_seat w_unpaid "b1" "X" "B7"
  ∧ ¬ owning_show w_unpaid "b1" "Y"
  ∧ holder (releaseSeatsAndDeleteBooking "b1" w_unpaid).2 "X" "B7" = Some "u9"
  ∧ Show.findById "Y" (shows (releaseSeatsAndDeleteBooking "b1" w_unpaid).2)
    = Some showY.
Proof.
  assert (H1 : ¬ booked_seat w_unpaid "b1" "X" "B7").
  { intros (b & Hb & _ & Hin). injection Hb as <-. simpl in Hin.
    apply elem_of_cons in Hin as [Hin|Hin]; [discriminate|].
    apply elem_of_cons in Hin as [Hin|Hin]; [discriminate|].
    by apply elem_of_nil in Hin. }
  assert (H2 : ¬ owning_show w_unpaid "b1" "Y").
  { intros (b & Hb & Hs). injection Hb as <-. discriminate. }
  split; [exact H1|]. split; [exact H2|]. split.
  - rewrite (proj1 (release_touches_only_booked_seats w_unpaid "b1" "X" "B7") H1).
    reflexivity.
  - rewrite (proj1 (proj2 (release_touches_only_booked_seats w_unpaid "b1" "Y" "A1")) H2).
    reflexivity.
Defined.

(** ** Seat release on its own *)

(** C4.  Releasing is idempotent: deleting each label of [seats] from the
    map a second time gives the map the first pass gave.  Deleting a
    label that is not in the map is not an error: [release_seats] is a
    total function, and a label that is absent contributes nothing. *)
Theorem release_seats_idempotent (seats : list string) (occ : gmap string string) :
  release_seats seats (release_seats seats occ) = release_seats seats occ
  ∧ ∀ seat, occ !! seat = None →
            release_seats (seat :: seats) occ = release_seats seats occ.
Proof.
  split.
  - apply map_eq. intros k. rewrite !release_seats_lookup.
    by destruct (decide (k ∈ seats)).
  - intros seat Hfree. rewrite release_seats_cons.
    by rewrite delete_id.
Qed.

Lemma release_seats_idempotent_witness :
  (Show.occupiedSeats showX) !! "C9" = None
  ∧ release_seats ["A1"; "A2"] (release_seats ["A1"; "A2"] (Show.occupiedSeats showX))
    = release_seats ["A1"; "A2"] (Show.occupiedSeats showX)
  ∧ release_seats ["C9"; "A1"; "A2"] (Show.occupiedSeats showX)
    = release_seats ["A1"; "A2"] (Show.occupiedSeats showX).
Proof.
  split; [reflexivity|]. split.
  - apply (proj1 (release_seats_idempotent ["A1"; "A2"] (Show.occupiedSeats showX))).
  - apply (proj2 (release_seats_idempotent ["A1"; "A2"] (Show.occupiedSeats showX))).
    reflexivity.
Defined.

(** ** What [bookingSchema] stores *)

Lemma bookingSchema_isPaid_array (now : Z) (f : Booking.fields) :
  Booking.f_isPaid f ≠ Some Js.Null →
  ∃ l, Booking.isPaid (Booking.new Booking.bookingSchema now f) = Js.Arr l.
Proof.
  intros Hn. unfold Booking.new. simpl. unfold Mongoose.init_path. simpl.
  destruct (Booking.f_isPaid f) as [v|]; simpl; [|by eexists].
  destruct v; try (by destruct Hn); by eexists.
Qed.

(** [null] is the one value the schema stores as it is. *)
Lemma bookingSchema_isPaid_null (now : Z) (f : Booking.fields) :
  Booking.f_isPaid f = Some Js.Null →
  Booking.isPaid (Booking.new Booking.bookingSchema now f) = Js.Null.
Proof. intros H. unfold Booking.new. simpl. by rewrite H. Qed.

Lemma bookingSchema_no_createdAt (now : Z) (f : Booking.fields) :
  Booking.createdAt (Booking.new Booking.bookingSchema now f) = None.
Proof. done. Qed.

Lemma Booking_findById_elem (id : string) (c : list Booking.doc) (b : Booking.doc) :
  Booking.findById id c = Some b → b ∈ c.
Proof.
  induction c as [|d c IH]; simpl; [done|].
  destruct (String.eqb (Booking._id d) id).
  - intros [= <-]. by left.
  - intros H. right. auto.
Qed.

(** With every stored [isPaid] an array, the job never writes. *)
Lemma array_isPaid_never_released (w : World) (bookingId : string) :
  Forall (λ b, ∃ l, Booking.isPaid b = Js.Arr l) (bookings w) →
  (releaseSeatsAndDeleteBooking bookingId w).2 = w.
Proof.
  intros Hall.
  destruct (Booking.findById bookingId (bookings w)) as [b|] eqn:Hb.
  - rewrite (job_paid w bookingId b Hb); [done|].
    rewrite Forall_forall in Hall.
    destruct (Hall b (Booking_findById_elem _ _ _ Hb)) as [l ->]. done.
  - by rewrite job_booking_missing.
Qed.

(** The spec's timeout scenario on the code: [b1] was created unpaid and
    never paid, the job fires, and [b1] and its holds on A1 and A2 are
    all still there. *)
Lemma timeout_scenario_releases_nothing :
  releaseSeatsAndDeleteBooking "b1" w_created = (inr tt, w_created)
  ∧ holder w_created "X" "A1" = Some "u1"
  ∧ holder w_created "X" "A2" = Some "u1".
Proof. done. Qed.

(** C3.  The claim: the job releases the seats of every existing booking
    with [isPaid] false and deletes it, the Show saved before the
    Booking is deleted.  On the code, a Booking that was created with
    [isPaid] false, or with [isPaid] left to the schema default [false],
    is stored with the array [[false]]; the job's test [!booking.isPaid]
    is false for it, so the job returns without saving any Show and
    without deleting the Booking: every seat keeps its holder and the
    Booking stays. *)
Theorem created_unpaid_booking_is_not_released (w : World) (now : Z)
    (f : Booking.fields) :
  Booking.f_isPaid f = None ∨ Booking.f_isPaid f = Some (Js.Bool false) →
  Booking.findById (Booking.f_id f) (bookings w)
  = Some (Booking.new Booking.bookingSchema now f) →
  let w' := (releaseSeatsAndDeleteBooking (Booking.f_id f) w).2 in
  (releaseSeatsAndDeleteBooking (Booking.f_id f) w).1 = inr tt
  ∧ w' = w
  ∧ Booking.findById (Booking.f_id f) (bookings w')
    = Some (Booking.new Booking.bookingSchema now f)
  ∧ (∀ seat, holder w' (Booking.f_show f) seat = holder w (Booking.f_show f) seat)
  ∧ oplog w' = oplog w.
Proof.
  intros Hf Hb. simpl.
  rewrite (job_paid w _ _ Hb).
  - cbn [fst snd]. by rewrite Hb.
  - unfold Booking.new. simpl. by destruct Hf as [-> | ->].
Qed.

Lemma created_unpaid_booking_is_not_released_witness :
  let w' := (releaseSeatsAndDeleteBooking "b1" w_created).2 in
  (Booking.f_isPaid b1_fields = None
   ∨ Booking.f_isPaid b1_fields = Some (Js.Bool false))
  ∧ Booking.findById "b1" (bookings w_created)
    = Some (Booking.new Booking.bookingSchema 1000 b1_fields)
  ∧ holder w_created "X" "A1" = Some "u1"
  ∧ holder w_created "X" "A2" = Some "u1"
  ∧ (releaseSeatsAndDeleteBooking "b1" w_created).1 = inr tt
  ∧ w' = w_created
  ∧ Booking.findById "b1" (bookings w')
    = Some (Booking.new Booking.bookingSchema 1000 b1_fields)
  ∧ (∀ seat, holder w' "X" seat = holder w_created "X" seat)
  ∧ oplog w' = oplog w_created.
Proof.
  split; [by left|]. split; [reflexivity|].
  split; [reflexivity|]. split; [reflexivity|].
  apply (created_unpaid_booking_is_not_released w_created 1000 b1_fields);
    [by left|reflexivity].
Defined.

(** C5.  The claim: a Booking is created with [isPaid] equal to the
    boolean [false], so the job's test [!booking.isPaid] holds for it.
    Under [bookingSchema] the path is an Array with default [false]: a
    Booking created without [isPaid] holds the array [[false]], which is
    not the boolean [false] and is truthy, so the job's test fails. *)
Theorem fresh_booking_isPaid_is_array (now : Z) (id user show : string)
    (amount : Z) (seats : list string) (link : option string) :
  let b := Booking.new Booking.bookingSchema now
             (Booking.mkFields id user show amount seats None link) in
  Booking.isPaid b = Js.Arr [Js.Bool false]
  ∧ Booking.isPaid b ≠ Js.Bool false
  ∧ negb (Js.truthy (Booking.isPaid b)) = false.
Proof. done. Qed.

(** ** Sorting *)

Lemma insert_by_front {A} (le : A → A → bool) (x : A) (l : list A) :
  Forall (λ y, le x y = true) l → insert_by le x l = x :: l.
Proof.
  destruct l as [|y l]; simpl; [done|].
  intros H. apply Forall_cons in H as [-> _]. done.
Qed.

Lemma sort_by_constant_key {A} (le : A → A → bool) (l : list A) :
  (∀ x y, x ∈ l → y ∈ l → le x y = true) → sort_by le l = l.
Proof.
  induction l as [|x l IH]; simpl; [done|].
  intros H. rewrite IH.
  - apply insert_by_front, Forall_forall. intros y Hy.
    apply H; [by left|by right].
  - intros a b Ha Hb. apply H; by right.
Qed.

Lemma insert_by_Permutation {A} (le : A → A → bool) (x : A) (l : list A) :
  insert_by le x l ≡ₚ x :: l.
Proof.
  induction l as [|y l IH]; simpl; [done|].
  destruct (le x y); [done|].
  rewrite IH. apply Permutation_swap.
Qed.

Lemma sort_by_Permutation {A} (le : A → A → bool) (l : list A) :
  sort_by le l ≡ₚ l.
Proof.
  induction l as [|x l IH]; simpl; [done|].
  by rewrite insert_by_Permutation, IH.
Qed.

(** ** getUserBookings *)


(** C6.  The claim: the caller's bookings come newest first.  The code
    sorts on [createdAt], a field that [bookingSchema] never writes (its
    option is spelled [timestamp]).  When no Booking carries [createdAt]
    the sort has nothing to order by and the bookings come back in the
    order they were inserted: oldest first. *)
Theorem getUserBookings_insertion_order (w : World) (user : string) :
  Forall (λ b, Booking.createdAt b = None) (bookings w) →
  getUserBookings user w =
  (inr (mkResponse 200
          (BookingsBody true
             (populate_show w <$> filter (λ b, Booking.user b = user) (bookings w)))),
   w).
Proof.
  intros Hall. unfold getUserBookings, try_catch. simpl.
  unfold Booking_find_user_sorted, Booking.find_user.
  rewrite sort_by_constant_key; [done|].
  intros x y Hx Hy. rewrite Forall_forall in Hall.
  apply list_elem_of_filter in Hx as [_ Hx], Hy as [_ Hy].
  unfold createdAt_desc. by rewrite (Hall x Hx), (Hall y Hy).
Qed.

Lemma getUserBookings_insertion_order_witness :
  Forall (λ b, Booking.createdAt b = None) (bookings w_created)
  ∧ bookings w_created
    = [Booking.new Booking.bookingSchema 1000 b1_fields;
       Booking.new Booking.bookingSchema 2000 b2_fields]
  ∧ getUserBookings "u1" w_created =
    (inr (mkResponse 200
            (BookingsBody true
               [populate_show w_created (Booking.new Booking.bookingSchema 1000 b1_fields);
                populate_show w_created (Booking.new Booking.bookingSchema 2000 b2_fields)])),
     w_created).
Proof.
  assert (H : Forall (λ b, Booking.createdAt b = None) (bookings w_created)).
  { repeat constructor. }
  split; [exact H|]. split; [reflexivity|].
  rewrite (getUserBookings_insertion_order w_created "u1" H). reflexivity.
Defined.

(** ** addShow *)

Section ShowControllerFacts.

Variable Date_new : string → option Z.
Variable ObjectId : nat → string.
Variable tmdb_movie : string → nat → AxiosError + MovieApiData.
Variable tmdb_credits : string → nat → AxiosError + list string.
Variable credits_rejects_first : string → bool.
Variable insertMany_rejection : string.

Abbreviation addShow' :=
  (addShow Date_new ObjectId tmdb_movie tmdb_credits credits_rejects_first
     insertMany_rejection).

Lemma guard_falsy (req : AddShowBody) :
  not_string (movieId req) || no_slots (showsInput req) || not_number (showPrice req)
  = true ↔ fields_falsy req.
Proof.
  unfold fields_falsy. destruct req as [mid sl pr]; simpl. split.
  - intros H.
    destruct mid as [id|]; [|by auto].
    destruct sl as [slots|]; [|by auto].
    destruct pr as [price|]; [|by auto 7].
    simpl in H.
    destruct (String.eqb_spec id "") as [->|Hid]; [by auto|].
    destruct slots as [|s slots]; [by auto 7|].
    destruct (Z.eqb_spec price 0) as [Hp|Hp]; [subst price; by auto 7|].
    done.
  - intros [-> | [-> | [-> | [-> | [-> | ->]]]]]; simpl; try done.
    + by rewrite orb_true_r.
    + by rewrite orb_true_r.
    + by rewrite orb_true_r.
    + by rewrite orb_true_r.
Qed.

Lemma addShow_rejected (req : AddShowBody) (w : World) :
  fields_falsy req → addShow' req w = (inr missing_fields, w).
Proof.
  intros H. apply guard_falsy in H. unfold addShow, try_catch.
  by rewrite H.
Qed.

Lemma addShow_accepted_status (req : AddShowBody) (w : World) :
  ¬ fields_falsy req →
  ∃ r, (addShow' req w).1 = inr r ∧ (status r = 200 ∨ status r = 500).
Proof.
  intros H. rewrite <- guard_falsy in H. apply not_true_is_false in H.
  unfold addShow, try_catch. rewrite H.
  unfold mbind, M_bind, bind, Movie_findById, lift, Show_insertMany. simpl.
  destruct (Movie.findById _ _); simpl.
  - destruct (0 <? _)%nat; simpl; [|eexists; split; eauto].
    destruct (mapM validated _); simpl; eexists; split; eauto.
  - destruct (Promise_all _ _ _) as [e|[d c]]; simpl;
      [eexists; split; eauto|].
    destruct (0 <? _)%nat; simpl; [|eexists; split; eauto].
    destruct (mapM validated _); simpl; eexists; split; eauto.
Qed.

(** C7, as amended.  [addShow] answers 400 with [success: false] exactly
    when the movie reference is missing or the empty string, the
    time-slot list is missing or empty, or the price is missing or zero;
    in that case it creates no Show and no Movie and sends no event: the
    world is unchanged.  Otherwise the answer is not the 400. *)
Theorem addShow_validation (req : AddShowBody) (w : World) :
  (fields_falsy req ↔ (addShow' req w).1 = inr missing_fields)
  ∧ (fields_falsy req → (addShow' req w).2 = w)
  ∧ (¬ fields_falsy req → ∀ r, (addShow' req w).1 = inr r → status r ≠ 400).
Proof.
  split_and!.
  - split.
    + intros H. by rewrite addShow_rejected.
    + intros E.
      destruct (not_string (movieId req) || no_slots (showsInput req)
                || not_number (showPrice req)) eqn:G; [by apply guard_falsy|].
      assert (Hn : ¬ fields_falsy req) by (rewrite <- guard_falsy; congruence).
      destruct (addShow_accepted_status req w Hn) as (r & Hr & Hs).
      rewrite Hr in E. injection E as ->. simpl in Hs. lia.
  - intros H. by rewrite addShow_rejected.
  - intros Hn r Hr.
    destruct (addShow_accepted_status req w Hn) as (r' & Hr' & Hs).
    rewrite Hr in Hr'. injection Hr' as <-. lia.
Qed.


Lemma foldl_push {A B} (g : A → B) (acc : list B) (l : list A) :
  foldl (λ acc a, acc ++ [g a]) acc l = acc ++ (g <$> l).
Proof.
  revert acc. induction l as [|a l IH]; intros acc; simpl.
  - by rewrite app_nil_r.
  - by rewrite IH, <- app_assoc.
Qed.

(** The nested loops push one object per supplied (date, time) pair, in
    order. *)
Lemma showsToCreate_pairs (id : string) (price : Z) (slots : list ShowInput) :
  showsToCreate Date_new id price slots
  = (λ p, new_show Date_new id price p.1 p.2) <$> supplied_pairs slots.
Proof.
  unfold showsToCreate, supplied_pairs.
  enough (G : ∀ acc,
    foldl (λ acc show,
             match time show with
             | Times ts =>
                 foldl (λ acc t, acc ++ [new_show Date_new id price (date show) t]) acc ts
             | OneTime t => acc ++ [new_show Date_new id price (date show) t]
             end) acc slots
    = acc ++ ((λ p, new_show Date_new id price p.1 p.2) <$>
                (slots ≫= (λ show,
                   match time show with
                   | Times ts => (λ t, (date show, t)) <$> ts
                   | OneTime t => [(date show, t)]
                   end)))) by apply (G []).
  induction slots as [|show slots IH]; intros acc; simpl.
  - by rewrite app_nil_r.
  - rewrite IH, fmap_app, app_assoc. f_equal.
    destruct (time show) as [ts|t]; simpl; [|done].
    rewrite foldl_push. f_equal. by rewrite <- list_fmap_compose.
Qed.

(** When every supplied date-time parses, validation passes and keeps
    one document per pair, with the parsed start time. *)
Lemma validated_pairs (id : string) (price : Z) (ps : list (string * string)) :
  Forall (λ p, is_Some (Date_new (p.1 +:+ "T" +:+ p.2))) ps →
  ∃ valid,
    mapM validated ((λ p, new_show Date_new id price p.1 p.2) <$> ps) = Some valid
    ∧ Forall2 (λ p s, Show.movie s = id
                      ∧ Show.showPrice s = price
                      ∧ Date_new (p.1 +:+ "T" +:+ p.2) = Some (Show.showDateTime s)
                      ∧ Show.occupiedSeats s = ∅)
              ps valid.
Proof.
  induction 1 as [|p ps [t Ht] _ (valid & Hv & IH)]; simpl.
  - exists []. split; [done|constructor].
  - exists (Show.mk "" id t price ∅ :: valid). split.
    + assert (E : validated (new_show Date_new id price p.1 p.2)
                  = Some (Show.mk "" id t price ∅)).
      { unfold validated, new_show. cbn [ns_showDateTime]. by rewrite Ht. }
      rewrite E. simpl. unfold fmap in Hv. by rewrite Hv.
    + by constructor.
Qed.

Lemma assign_ids_pairs (id : string) (price : Z) (from : nat)
    (ps : list (string * string)) (valid : list Show.doc) :
  Forall2 (λ p s, Show.movie s = id
                  ∧ Show.showPrice s = price
                  ∧ Date_new (p.1 +:+ "T" +:+ p.2) = Some (Show.showDateTime s)
                  ∧ Show.occupiedSeats s = ∅)
          ps valid →
  Forall2 (λ p s, Show.movie s = id
                  ∧ Show.showPrice s = price
                  ∧ Date_new (p.1 +:+ "T" +:+ p.2) = Some (Show.showDateTime s)
                  ∧ Show.occupiedSeats s = ∅)
          ps (assign_ids ObjectId from valid).
Proof.
  unfold assign_ids. intros H. revert from.
  induction H as [|p d ps valid Hpd _ IH]; intros from; simpl; [constructor|].
  constructor; [done|].
  rewrite (imap_ext _ (λ i d0, Show.mk (ObjectId (S from + i)) (Show.movie d0)
                                 (Show.showDateTime d0) (Show.showPrice d0)
                                 (Show.occupiedSeats d0))).
  - apply IH.
  - intros i x _. simpl. do 2 f_equal. lia.
Qed.

(** C8.  For a valid request (movie reference, non-empty slot list and
    price supplied and truthy, every supplied date and time a date-time
    that [new Date] parses, and the movie stored or obtainable from
    TMDB) [addShow] answers success and appends exactly one Show per
    supplied (date, time) pair, in order, each with the given movie
    reference and price, start time [new Date(date + "T" + time)] and no
    occupied seat; and it sends one event named [app/show.added]
    carrying the movie title. *)
Theorem addShow_creates_one_show_per_pair (req : AddShowBody) (w : World)
    (id : string) (slots : list ShowInput) (price : Z) (m : Movie.doc) :
  movieId req = Some id → id ≠ "" →
  showsInput req = Some slots → slots ≠ [] →
  showPrice req = Some price → price ≠ 0 →
  Forall (λ p, is_Some (Date_new (p.1 +:+ "T" +:+ p.2))) (supplied_pairs slots) →
  resolves_to tmdb_movie tmdb_credits id w m →
  let w' := (addShow' req w).2 in
  (addShow' req w).1 = inr (mkResponse 200 (Message true "Show Added successfully."))
  ∧ (∃ created,
       shows w' = shows w ++ created
       ∧ Forall2 (λ p s, Show.movie s = id
                         ∧ Show.showPrice s = price
                         ∧ Date_new (p.1 +:+ "T" +:+ p.2) = Some (Show.showDateTime s)
                         ∧ Show.occupiedSeats s = ∅)
                 (supplied_pairs slots) created)
  ∧ sent w' = sent w ++ [mkEvent "app/show.added" (Movie.title m)].
Proof.
  intros Hid Hne Hsl Hsne Hp Hpne Hdates Hres.
  assert (G : not_string (movieId req) || no_slots (showsInput req)
              || not_number (showPrice req) = false).
  { rewrite Hid, Hsl, Hp. simpl.
    destruct (String.eqb_spec id ""); [done|].
    destruct slots; [done|]. simpl.
    destruct (Z.eqb_spec price 0); done. }
  destruct (validated_pairs id price _ Hdates) as (valid & Hv & F).
  rewrite <- showsToCreate_pairs in Hv.
  assert (L0 : (0 <? length (showsToCreate Date_new id price slots))%nat = false →
               valid = []).
  { intros L. apply Nat.ltb_ge in L.
    destruct (showsToCreate Date_new id price slots); [|simpl in L; lia].
    simpl in Hv. by injection Hv as <-. }
  simpl. unfold addShow, try_catch. rewrite G, Hid, Hsl, Hp. simpl.
  unfold mbind, M_bind, bind, Movie_findById, lift, Show_insertMany. simpl.
  destruct Hres as [Hm|(Hm & d & c & Hd & Hc & ->)]; rewrite Hm; simpl.
  - destruct (0 <? _)%nat eqn:L; simpl.
    + rewrite Hv. simpl. split_and!; [done| |done].
      eexists. split; [done|]. by apply assign_ids_pairs.
    + split_and!; [done| |done]. exists []. rewrite app_nil_r. split; [done|].
      by rewrite <- (L0 eq_refl).
  - rewrite Hd, Hc. simpl.
    destruct (0 <? _)%nat eqn:L; simpl.
    + rewrite Hv. simpl. split_and!; [done| |done].
      eexists. split; [done|]. by apply assign_ids_pairs.
    + split_and!; [done| |done]. exists []. rewrite app_nil_r. split; [done|].
      by rewrite <- (L0 eq_refl).
Qed.

End ShowControllerFacts.

(** ** getShows *)

Lemma Movie_findById_id (id : string) (c : list Movie.doc) (m : Movie.doc) :
  Movie.findById id c = Some m → Movie._id m = id.
Proof.
  induction c as [|d c IH]; simpl; [done|].
  destruct (String.eqb_spec (Movie._id d) id); [|done].
  intros [= <-]. done.
Qed.

Lemma insert_by_start_time (x : Show.doc) (l : list Show.doc) :
  StronglySorted by_start_time l →
  StronglySorted by_start_time (insert_by showDateTime_asc x l).
Proof.
  induction 1 as [|y l Hl IH Hy]; simpl.
  - repeat constructor.
  - unfold showDateTime_asc at 1.
    destruct (Z.leb_spec (Show.showDateTime x) (Show.showDateTime y)) as [Hxy|Hxy].
    + constructor; [by constructor|].
      constructor; [done|].
      eapply Forall_impl; [exact Hy|]. unfold by_start_time. intros z Hz. simpl in *. lia.
    + constructor; [done|].
      rewrite insert_by_Permutation. constructor; [|done].
      unfold by_start_time. lia.
Qed.

Lemma upcoming_sorted (now : Z) (w : World) :
  StronglySorted by_start_time (upcoming now w).
Proof.
  unfold upcoming. induction (filter _ (shows w)) as [|x l IH]; simpl.
  - constructor.
  - by apply insert_by_start_time.
Qed.

Lemma upcoming_elem (now : Z) (w : World) (s : Show.doc) :
  s ∈ upcoming now w ↔ s ∈ shows w ∧ now ≤ Show.showDateTime s.
Proof.
  unfold upcoming. rewrite sort_by_Permutation, list_elem_of_filter. tauto.
Qed.

Lemma Map_has_elem {V} (k : string) (m : list (string * V)) :
  Map_has k m = bool_decide (k ∈ m.*1).
Proof.
  unfold Map_has. induction m as [|[k' v] m IH]; simpl; [done|].
  rewrite IH. destruct (String.eqb_spec k' k) as [->|Hne]; simpl.
  - symmetry. apply bool_decide_eq_true. by left.
  - apply bool_decide_ext. rewrite elem_of_cons. simpl.
    split; [by right|]. intros [?|?]; [congruence|done].
Qed.

(** The [forEach] over the populated Shows keeps the Movie of each first
    occurrence, in order. *)
Lemma uniqueMovies_fold (w : World) (l : list Show.doc) (um : list (string * Movie.doc)) :
  foldl (λ um show,
           match ps_movie show with
           | Some m =>
               if negb (Map_has (Movie._id m) um)
               then Map_set (Movie._id m) m um
               else um
           | None => um
           end) um (populate_movie w <$> l)
  = um ++ omap (λ s, (λ m, (Show.movie s, m)) <$> Movie.findById (Show.movie s) (movies w))
               (first_occurrences w um.*1 l).
Proof.
  revert um. induction l as [|s l IH]; intros um; simpl.
  - by rewrite app_nil_r.
  - destruct (Movie.findById (Show.movie s) (movies w)) as [m|] eqn:Hm; [|apply IH].
    rewrite (Movie_findById_id _ _ _ Hm).
    unfold Map_set. rewrite Map_has_elem.
    destruct (bool_decide (Show.movie s ∈ um.*1)); simpl; [apply IH|].
    rewrite IH, fmap_app. simpl. rewrite Hm. simpl.
    by rewrite <- app_assoc.
Qed.

Lemma first_occurrences_resolve (w : World) (seen : list string) (l : list Show.doc) :
  Forall (λ s, is_Some (Movie.findById (Show.movie s) (movies w))
               ∧ Show.movie s ∉ seen)
         (first_occurrences w seen l).
Proof.
  revert seen. induction l as [|s l IH]; intros seen; simpl; [constructor|].
  destruct (Movie.findById (Show.movie s) (movies w)) as [m|] eqn:Hm; [|apply IH].
  destruct (bool_decide_reflect (Show.movie s ∈ seen)) as [Hin|Hnin]; [apply IH|].
  constructor.
  - rewrite Hm. split; [by eexists|done].
  - eapply Forall_impl; [apply IH|]. simpl. intros x [Hx Hnx].
    split; [done|]. intros Hin. apply Hnx, elem_of_app. by left.
Qed.

Lemma first_occurrences_sublist (w : World) (seen : list string) (l : list Show.doc) :
  first_occurrences w seen l `sublist_of` l.
Proof.
  revert seen. induction l as [|s l IH]; intros seen; simpl; [done|].
  destruct (Movie.findById _ _); [|by apply sublist_cons].
  destruct (bool_decide _); [by apply sublist_cons|by apply sublist_skip].
Qed.

Lemma first_occurrences_NoDup (w : World) (seen : list string) (l : list Show.doc) :
  NoDup (Show.movie <$> first_occurrences w seen l).
Proof.
  revert seen. induction l as [|s l IH]; intros seen; simpl; [constructor|].
  destruct (Movie.findById _ _); [|apply IH].
  destruct (bool_decide _); [apply IH|].
  simpl. constructor; [|apply IH].
  intros Hin. apply list_elem_of_fmap in Hin as (x & Hx & Hin).
  pose proof (first_occurrences_resolve w (seen ++ [Show.movie s]) l) as F.
  rewrite Forall_forall in F. destruct (F x Hin) as [_ Hn].
  apply Hn, elem_of_app. right. rewrite <- Hx. by left.
Qed.

(** Every Show of [l] whose movie resolves and is not yet seen has its
    movie's entry, and that entry is the first Show of [l] with this
    movie. *)
Lemma first_occurrences_first (w : World) (seen : list string) (l : list Show.doc)
    (s : Show.doc) :
  s ∈ l → is_Some (Movie.findById (Show.movie s) (movies w)) → Show.movie s ∉ seen →
  ∃ f pre post,
    f ∈ first_occurrences w seen l
    ∧ Show.movie f = Show.movie s
    ∧ l = pre ++ f :: post
    ∧ ∀ x, x ∈ pre → Show.movie x ≠ Show.movie s.
Proof.
  revert seen. induction l as [|a l IH]; intros seen Hin Hres Hseen.
  - by apply elem_of_nil in Hin.
  - simpl. destruct (decide (Show.movie a = Show.movie s)) as [Heq|Hne].
    + rewrite Heq. destruct Hres as [m Hm]. rewrite Hm.
      rewrite bool_decide_eq_false_2 by done.
      exists a, [], l. split_and!; [by left|done|done|].
      intros x Hx. by apply elem_of_nil in Hx.
    + apply elem_of_cons in Hin as [->|Hin]; [done|].
      assert (G : ∀ seen', Show.movie s ∉ seen' →
                ∃ f pre post, f ∈ first_occurrences w seen' l
                  ∧ Show.movie f = Show.movie s ∧ a :: l = pre ++ f :: post
                  ∧ ∀ x, x ∈ pre → Show.movie x ≠ Show.movie s).
      { intros seen' Hs'. destruct (IH seen' Hin Hres Hs') as (f & pre & post & Hf & Hm & -> & Hpre).
        exists f, (a :: pre), post. split_and!; try done.
        intros x Hx. apply elem_of_cons in Hx as [->|Hx]; [done|by apply Hpre]. }
      destruct (Movie.findById (Show.movie a) (movies w)); [|by apply G].
      destruct (bool_decide_reflect (Show.movie a ∈ seen)); [by apply G|].
      destruct (G (seen ++ [Show.movie a])) as (f & pre & post & Hf & Hrest).
      { intros Hx. apply elem_of_app in Hx as [Hx|Hx]; [done|].
        apply list_elem_of_singleton in Hx. congruence. }
      exists f, pre, post. split; [by right|done].
Qed.

Lemma StronglySorted_sublist {A} (R : A → A → Prop) (l1 l2 : list A) :
  l1 `sublist_of` l2 → StronglySorted R l2 → StronglySorted R l1.
Proof.
  induction 1 as [|x l1 l2 Hsub IH|x l1 l2 Hsub IH]; intros Hs.
  - constructor.
  - apply StronglySorted_inv in Hs as [Hs Hx].
    constructor; [auto|].
    rewrite Forall_forall in Hx |- *. intros y Hy.
    apply Hx. by eapply elem_of_sublist.
  - apply StronglySorted_inv in Hs as [Hs _]. auto.
Qed.

(** C9, as amended.  [getShows] answers with one entry per distinct
    movie that has an upcoming Show (start time at or after [now]) and
    whose reference resolves to a stored Movie; the entry is that Movie,
    populated from the movie's first Show in ascending start-time order,
    not the Show; and the entries are in ascending order of the start
    times of those first Shows.  An upcoming Show whose movie reference
    does not resolve contributes no entry. *)
Theorem getShows_first_per_movie (now : Z) (w : World) :
  ∃ fs ms,
    getShows now w = (inr (mkResponse 200 (ShowsBody true ms)), w)
    ∧ Forall2 (λ f m, Movie.findById (Show.movie f) (movies w) = Some m) fs ms
    ∧ (∀ f, f ∈ fs → f ∈ shows w ∧ now ≤ Show.showDateTime f)
    ∧ NoDup (Show.movie <$> fs)
    ∧ (∀ s, s ∈ shows w → now ≤ Show.showDateTime s →
            is_Some (Movie.findById (Show.movie s) (movies w)) →
            ∃ f pre post,
              f ∈ fs ∧ Show.movie f = Show.movie s
              ∧ upcoming now w = pre ++ f :: post
              ∧ (∀ x, x ∈ pre → Show.movie x ≠ Show.movie s)
              ∧ Show.showDateTime f ≤ Show.showDateTime s)
    ∧ StronglySorted by_start_time (upcoming now w)
    ∧ fs `sublist_of` upcoming now w
    ∧ StronglySorted by_start_time fs.
Proof.
  exists (first_occurrences w [] (upcoming now w)).
  exists (omap (λ s, Movie.findById (Show.movie s) (movies w))
               (first_occurrences w [] (upcoming now w))).
  pose proof (first_occurrences_sublist w [] (upcoming now w)) as Hsub.
  pose proof (upcoming_sorted now w) as Hsorted.
  split_and!.
  - unfold getShows, try_catch, mbind, M_bind, bind, Show_find_upcoming. simpl.
    do 4 f_equal. unfold uniqueMovies.
    rewrite (uniqueMovies_fold w _ []). simpl. unfold Map_values.
    fold (upcoming now w). clear Hsub Hsorted.
    induction (first_occurrences w [] (upcoming now w)) as [|f fs IH]; simpl; [done|].
    destruct (Movie.findById (Show.movie f) (movies w)); simpl;
      [f_equal; exact IH|exact IH].
  - pose proof (first_occurrences_resolve w [] (upcoming now w)) as F.
    clear Hsub Hsorted. revert F.
    generalize (first_occurrences w [] (upcoming now w)). intros l.
    induction l as [|f fs IH]; intros F; simpl; [constructor|].
    apply Forall_cons in F as [[[m Hm] _] F].
    rewrite Hm. constructor; [done|by apply IH].
  - intros f Hf. apply upcoming_elem. by eapply elem_of_sublist.
  - apply first_occurrences_NoDup.
  - intros s Hs Hnow Hres.
    assert (Hup : s ∈ upcoming now w) by by apply upcoming_elem.
    destruct (first_occurrences_first w [] (upcoming now w) s Hup Hres)
      as (f & pre & post & Hf & Hm & Hl & Hpre).
    { intros Hx. by apply elem_of_nil in Hx. }
    exists f, pre, post. split_and!; try done.
    rewrite Hl in Hsorted, Hup.
    apply elem_of_app in Hup as [Hup|Hup]; [by apply Hpre in Hup|].
    apply elem_of_cons in Hup as [->|Hup]; [done|].
    apply StronglySorted_app_1_r, StronglySorted_inv in Hsorted as [_ Hall].
    rewrite Forall_forall in Hall. by apply Hall.
  - done.
  - done.
  - by eapply StronglySorted_sublist.
Qed.

(** C9, the claim as stated fails.  In [w_dangling] two distinct movies
    have an upcoming Show, so the listing the claim describes has two
    entries; the code answers with one, because no Movie is stored for
    the reference of the earlier Show.  And the entries are Movies, not
    Shows: [w_early] and [w_late] have different first Shows for the one
    movie, and the code answers both with the same list. *)
Lemma getShows_skips_unresolved_movie :
  listUpcomingShows_spec 5000 w_dangling
  = [Show.mk "s1" "m9" 6000 120 ∅; Show.mk "s2" "m1" 7000 200 ∅]
  ∧ getShows 5000 w_dangling
    = (inr (mkResponse 200 (ShowsBody true [movie_m1])), w_dangling)
  ∧ listUpcomingShows_spec 5000 w_early ≠ listUpcomingShows_spec 5000 w_late
  ∧ (getShows 5000 w_early).1 = (getShows 5000 w_late).1.
Proof. split_and!; [reflexivity|reflexivity|discriminate|reflexivity]. Qed.

Example getShows_listing :
  (getShows 5000 w_listing).1
  = inr (mkResponse 200 (ShowsBody true [movie_m1; movie_m2])).
Proof. reflexivity. Qed.

(** ** Worked requests *)

(** C7, the claim as stated fails: this request supplies the movie
    reference, a non-empty slot list and a price, so nothing is missing,
    and it is still rejected with the 400 "Required fields missing.",
    because the supplied price is zero.  Rejection and missing fields do
    not coincide. *)
Lemma addShow_rejects_zero_price :
  ¬ (fields_missing zero_price_req
     ↔ (addShow sample_Date_new sample_ObjectId tmdb_down tmdb_down details_first sample_rejection
          zero_price_req w_catalog).1
       = inr (mkResponse 400 (Message false "Required fields missing."))).
Proof.
  intros [_ H].
  assert (M : fields_missing zero_price_req) by (apply H; reflexivity).
  destruct M as [M|[M|[M|M]]]; discriminate M.
Qed.

Lemma two_dates_req_not_falsy : ¬ fields_falsy two_dates_req.
Proof. intros [H|[H|[H|[H|[H|H]]]]]; discriminate H. Qed.

Lemma zero_price_req_falsy : fields_falsy zero_price_req.
Proof. unfold fields_falsy. simpl. auto 7. Qed.

Lemma addShow_validation_witness :
  fields_falsy zero_price_req
  ∧ ¬ fields_falsy two_dates_req
  ∧ (addShow sample_Date_new sample_ObjectId tmdb_down tmdb_down details_first sample_rejection
       zero_price_req w_catalog).1 = inr missing_fields
  ∧ (addShow sample_Date_new sample_ObjectId tmdb_down tmdb_down details_first sample_rejection
       zero_price_req w_catalog).2 = w_catalog
  ∧ (addShow sample_Date_new sample_ObjectId tmdb_down tmdb_down details_first sample_rejection
       two_dates_req w_catalog).1 ≠ inr missing_fields.
Proof.
  split; [exact zero_price_req_falsy|].
  split; [exact two_dates_req_not_falsy|].
  pose proof (addShow_validation sample_Date_new sample_ObjectId tmdb_down tmdb_down details_first sample_rejection
                zero_price_req w_catalog) as (Hiff & Hsame & _).
  pose proof (addShow_validation sample_Date_new sample_ObjectId tmdb_down tmdb_down details_first sample_rejection
                two_dates_req w_catalog) as (Hiff' & _ & _).
  split; [exact (proj1 Hiff zero_price_req_falsy)|].
  split; [exact (Hsame zero_price_req_falsy)|].
  intros E. exact (two_dates_req_not_falsy (proj2 Hiff' E)).
Defined.

Lemma addShow_creates_one_show_per_pair_witness :
  movieId two_dates_req = Some "m1"
  ∧ "m1" ≠ ""
  ∧ showsInput two_dates_req
    = Some [mkShowInput "2025-07-01" (Times ["10:00"; "18:30"]);
            mkShowInput "2025-07-02" (OneTime "21:00")]
  ∧ [mkShowInput "2025-07-01" (Times ["10:00"; "18:30"]);
     mkShowInput "2025-07-02" (OneTime "21:00")] ≠ []
  ∧ showPrice two_dates_req = Some 200
  ∧ 200 ≠ 0
  ∧ Forall (λ p, is_Some (sample_Date_new (p.1 +:+ "T" +:+ p.2)))
           (supplied_pairs [mkShowInput "2025-07-01" (Times ["10:00"; "18:30"]);
                            mkShowInput "2025-07-02" (OneTime "21:00")])
  ∧ resolves_to tmdb_down tmdb_down "m1" w_catalog movie_m1
  ∧ (addShow sample_Date_new sample_ObjectId tmdb_down tmdb_down
       details_first sample_rejection two_dates_req w_catalog).1
    = inr (mkResponse 200 (Message true "Show Added successfully."))
  ∧ (∃ created,
       shows (addShow sample_Date_new sample_ObjectId tmdb_down tmdb_down
                details_first sample_rejection two_dates_req w_catalog).2
       = shows w_catalog ++ created
       ∧ Forall2 (λ p s, Show.movie s = "m1"
                         ∧ Show.showPrice s = 200
                         ∧ sample_Date_new (p.1 +:+ "T" +:+ p.2)
                           = Some (Show.showDateTime s)
                         ∧ Show.occupiedSeats s = ∅)
                 [("2025-07-01", "10:00"); ("2025-07-01", "18:30");
                  ("2025-07-02", "21:00")]
                 created)
  ∧ sent (addShow sample_Date_new sample_ObjectId tmdb_down tmdb_down
            details_first sample_rejection two_dates_req w_catalog).2
    = sent w_catalog ++ [mkEvent "app/show.added" "Heat"].
Proof.
  assert (R : resolves_to tmdb_down tmdb_down "m1" w_catalog movie_m1)
    by (left; reflexivity).
  assert (D : Forall (λ p, is_Some (sample_Date_new (p.1 +:+ "T" +:+ p.2)))
                (supplied_pairs
                   [mkShowInput "2025-07-01" (Times ["10:00"; "18:30"]);
                    mkShowInput "2025-07-02" (OneTime "21:00")])).
  { repeat apply Forall_cons_2; try apply Forall_nil_2; by eexists. }
  split; [reflexivity|]. split; [discriminate|]. split; [reflexivity|].
  split; [discriminate|]. split; [reflexivity|]. split; [lia|].
  split; [exact D|]. split; [exact R|].
  apply (addShow_creates_one_show_per_pair sample_Date_new sample_ObjectId
           tmdb_down tmdb_down details_first sample_rejection
           two_dates_req w_catalog "m1"
           [mkShowInput "2025-07-01" (Times ["10:00"; "18:30"]);
            mkShowInput "2025-07-02" (OneTime "21:00")]
           200 movie_m1);
    [reflexivity|discriminate|reflexivity|discriminate|reflexivity|lia
    |exact D|exact R].
Defined.

(** The same request on the code, value for value. *)
Example addShow_two_dates :
  shows (addShow sample_Date_new sample_ObjectId tmdb_down tmdb_down details_first sample_rejection
           two_dates_req w_catalog).2
  = [ Show.mk "oid0" "m1" 202507011000 200 ∅;
      Show.mk "oid1" "m1" 202507011830 200 ∅;
      Show.mk "oid2" "m1" 202507022100 200 ∅ ].
Proof. reflexivity. Qed.

(** A slot whose date is no date: [new Date] gives an invalid date,
    [insertMany] rejects the whole batch, and the answer is a 500; no
    Show is created and no event is sent, also not for the slot that is
    a date. *)
Example addShow_invalid_date :
  addShow sample_Date_new sample_ObjectId tmdb_down tmdb_down
    details_first sample_rejection
    (mkAddShowBody (Some "m1")
       (Some [mkShowInput "2025-07-01" (OneTime "10:00");
              mkShowInput "someday" (OneTime "10:00")])
       (Some 200))
    w_catalog
  = (inr (mkResponse 500 (Message false "Show validation failed")), w_catalog).
Proof. reflexivity. Qed.

(** When the movie is not stored and TMDB keeps failing, the six
    attempts are used up and the answer is a 500; nothing is created. *)
Example addShow_tmdb_down :
  addShow sample_Date_new sample_ObjectId tmdb_down tmdb_down details_first sample_rejection
    (mkAddShowBody (Some "m9") (Some [mkShowInput "2025-07-01" (OneTime "10:00")])
       (Some 200))
    w_catalog
  = (inr (mkResponse 500
            (Message false
               "Failed to fetch data from https://api.themoviedb.org/3/movie/m9 after 6 attempts.")),
     w_catalog).
Proof. reflexivity. Qed.

(** * Further properties of the code *)

(** ** The release job: retries, frames, invariants *)

Lemma Booking_delete_sublist (id : string) (c : list Booking.doc) :
  Booking.findByIdAndDelete id c `sublist_of` c.
Proof.
  induction c as [|d c IH]; simpl; [done|].
  destruct (String.eqb (Booking._id d) id).
  - apply sublist_cons. reflexivity.
  - apply sublist_skip. exact IH.
Qed.

Lemma job_bookings_sublist (w : World) (bookingId : string) :
  bookings (releaseSeatsAndDeleteBooking bookingId w).2 `sublist_of` bookings w.
Proof.
  destruct (job_cases w bookingId) as [E|[E|(b & s & _ & _ & E)]];
    rewrite E; simpl; try done.
  apply Booking_delete_sublist.
Qed.

(** Running the job again for the same booking id (Inngest redelivers
    at least once) leaves the store exactly as the first run left it. *)
Theorem job_rerun_changes_nothing (w : World) (bookingId : string) :
  NoDup (Booking._id <$> bookings w) →
  (releaseSeatsAndDeleteBooking bookingId
     (releaseSeatsAndDeleteBooking bookingId w).2).2
  = (releaseSeatsAndDeleteBooking bookingId w).2.
Proof.
  intros Hnd.
  destruct (job_cases w bookingId) as [E|[E|(b & s & _ & _ & E)]];
    rewrite E; simpl; try by rewrite E.
  rewrite job_booking_missing; [done|]. simpl.
  by apply Booking_deleted_gone.
Qed.

Lemma job_rerun_changes_nothing_witness :
  NoDup (Booking._id <$> bookings w_unpaid)
  ∧ (releaseSeatsAndDeleteBooking "b1" w_unpaid).2 ≠ w_unpaid
  ∧ (releaseSeatsAndDeleteBooking "b1"
       (releaseSeatsAndDeleteBooking "b1" w_unpaid).2).2
    = (releaseSeatsAndDeleteBooking "b1" w_unpaid).2.
Proof.
  assert (Hnd : NoDup (Booking._id <$> bookings w_unpaid)).
  { simpl. apply NoDup_singleton. }
  split; [exact Hnd|]. split; [discriminate|].
  exact (job_rerun_changes_nothing w_unpaid "b1" Hnd).
Defined.

(** The job leaves every other Booking, the Movies, the ObjectId counter
    and the sent events alone. *)
Theorem job_keeps_other_bookings (w : World) (bookingId other : string) :
  other ≠ bookingId →
  let w' := (releaseSeatsAndDeleteBooking bookingId w).2 in
  Booking.findById other (bookings w') = Booking.findById other (bookings w)
  ∧ movies w' = movies w
  ∧ next_oid w' = next_oid w
  ∧ sent w' = sent w.
Proof.
  intros Hne. simpl.
  destruct (job_cases w bookingId) as [E|[E|(b & s & _ & _ & E)]];
    rewrite E; simpl; try done.
  split_and!; try done. by apply Booking_delete_other.
Qed.

Lemma job_keeps_other_bookings_witness :
  "b3" ≠ "b1"
  ∧ Booking.findById "b1" (bookings (releaseSeatsAndDeleteBooking "b1" w_orphan).2)
    = None
  ∧ Booking.findById "b3" (bookings (releaseSeatsAndDeleteBooking "b1" w_orphan).2)
    = Some b3_orphan.
Proof.
  assert (Hne : "b3" ≠ "b1") by discriminate.
  split; [exact Hne|]. split; [reflexivity|].
  rewrite (proj1 (job_keeps_other_bookings w_orphan "b1" "b3" Hne)).
  reflexivity.
Defined.

(** The job never creates a Booking and keeps booking ids unique. *)
Theorem job_keeps_booking_ids_unique (w : World) (bookingId : string) :
  NoDup (Booking._id <$> bookings w) →
  let w' := (releaseSeatsAndDeleteBooking bookingId w).2 in
  bookings w' `sublist_of` bookings w
  ∧ NoDup (Booking._id <$> bookings w').
Proof.
  intros Hnd. simpl.
  pose proof (job_bookings_sublist w bookingId) as Hsub.
  split; [done|].
  eapply sublist_NoDup; [exact Hnd|]. by apply fmap_sublist.
Qed.

Lemma job_keeps_booking_ids_unique_witness :
  NoDup (Booking._id <$> bookings w_orphan)
  ∧ bookings (releaseSeatsAndDeleteBooking "b1" w_orphan).2 = [b3_orphan]
  ∧ NoDup (Booking._id <$> bookings (releaseSeatsAndDeleteBooking "b1" w_orphan).2).
Proof.
  assert (Hnd : NoDup (Booking._id <$> bookings w_orphan)).
  { simpl. apply NoDup_cons. split; [|apply NoDup_singleton].
    intros H. apply list_elem_of_singleton in H. discriminate H. }
  split; [exact Hnd|]. split; [reflexivity|].
  exact (proj2 (job_keeps_booking_ids_unique w_orphan "b1" Hnd)).
Defined.

(** The job never gives a seat a holder: whoever holds a seat after the
    job held it before. *)
Theorem job_never_assigns_a_seat (w : World) (bookingId sid seat h : string) :
  holder (releaseSeatsAndDeleteBooking bookingId w).2 sid seat = Some h →
  holder w sid seat = Some h.
Proof.
  destruct (job_cases w bookingId) as [E|[E|(b & s & Hb & Hs & E)]];
    rewrite E; simpl; try done.
  unfold holder. simpl. rewrite Show_findById_save. simpl.
  rewrite (Show_findById_id _ _ _ Hs).
  destruct (String.eqb_spec sid (Booking.show b)) as [->|Hne]; [|done].
  rewrite Hs. simpl. rewrite release_seats_lookup.
  by destruct (decide (seat ∈ Booking.bookedSeats b)).
Qed.

Lemma job_never_assigns_a_seat_witness :
  holder (releaseSeatsAndDeleteBooking "b1" w_unpaid).2 "X" "B7" = Some "u9"
  ∧ holder w_unpaid "X" "B7" = Some "u9".
Proof.
  split; [reflexivity|].
  apply (job_never_assigns_a_seat w_unpaid "b1" "X" "B7" "u9"). reflexivity.
Defined.

(** An unpaid booking whose Show no longer exists is never cleaned up:
    the step throws on the [null] Show before the delete, so the Booking
    stays (and every redelivery throws again). *)
Theorem unpaid_booking_of_missing_show_stays (w : World) (bookingId : string)
    (b : Booking.doc) :
  Booking.findById bookingId (bookings w) = Some b →
  Js.truthy (Booking.isPaid b) = false →
  Show.findById (Booking.show b) (shows w) = None →
  (releaseSeatsAndDeleteBooking bookingId w).1 = inl Js.TypeError
  ∧ (releaseSeatsAndDeleteBooking bookingId w).2 = w
  ∧ Booking.findById bookingId
      (bookings (releaseSeatsAndDeleteBooking bookingId w).2) = Some b.
Proof.
  intros Hb Hp Hs. by rewrite (job_show_missing w bookingId b Hb Hp Hs).
Qed.

Lemma unpaid_booking_of_missing_show_stays_witness :
  Booking.findById "b3" (bookings w_orphan) = Some b3_orphan
  ∧ Js.truthy (Booking.isPaid b3_orphan) = false
  ∧ Show.findById "Z" (shows w_orphan) = None
  ∧ (releaseSeatsAndDeleteBooking "b3" w_orphan).1 = inl Js.TypeError
  ∧ (releaseSeatsAndDeleteBooking "b3" w_orphan).2 = w_orphan
  ∧ Booking.findById "b3"
      (bookings (releaseSeatsAndDeleteBooking "b3" w_orphan).2) = Some b3_orphan.
Proof.
  split; [reflexivity|]. split; [reflexivity|]. split; [reflexivity|].
  apply (unpaid_booking_of_missing_show_stays w_orphan "b3" b3_orphan);
    reflexivity.
Defined.

Lemma ledger_isPaid_arrays (calls : list (Z * Booking.fields)) :
  Forall (λ call, Booking.f_isPaid call.2 ≠ Some Js.Null) calls →
  Forall (λ b, ∃ l, Booking.isPaid b = Js.Arr l) (ledger_of calls).
Proof.
  unfold ledger_of. intros Hcalls.
  enough (G : ∀ c, Forall (λ b, ∃ l, Booking.isPaid b = Js.Arr l) c →
            Forall (λ b, ∃ l, Booking.isPaid b = Js.Arr l)
              (foldl (λ c call, Booking.create call.1 call.2 c) c calls))
    by (apply G; constructor).
  induction Hcalls as [|[now f] calls Hf _ IH]; intros c Hc; simpl; [done|].
  apply IH. unfold Booking.create. apply Forall_app. split; [done|].
  constructor; [|constructor]. by apply bookingSchema_isPaid_array.
Qed.

(** With a ledger written only through [Booking.create], no call of
    which passed [isPaid: null] (whatever else the callers passed as
    [isPaid], or nothing, at whatever times), the job changes nothing,
    for any booking id: no seat is ever released and no Booking is ever
    deleted. *)
Theorem job_inert_on_created_ledger (w : World) (calls : list (Z * Booking.fields))
    (bookingId : string) :
  Forall (λ call, Booking.f_isPaid call.2 ≠ Some Js.Null) calls →
  bookings w = ledger_of calls →
  (releaseSeatsAndDeleteBooking bookingId w).2 = w.
Proof.
  intros Hcalls E. apply array_isPaid_never_released. rewrite E.
  by apply ledger_isPaid_arrays.
Qed.

Lemma job_inert_on_created_ledger_witness :
  Forall (λ call : Z * Booking.fields, Booking.f_isPaid call.2 ≠ Some Js.Null)
         [(1000, b1_fields); (2000, b2_fields)]
  ∧ bookings w_created = ledger_of [(1000, b1_fields); (2000, b2_fields)]
  ∧ (releaseSeatsAndDeleteBooking "b1" w_created).2 = w_created
  ∧ (releaseSeatsAndDeleteBooking "b2" w_created).2 = w_created.
Proof.
  assert (H : Forall (λ call : Z * Booking.fields,
                        Booking.f_isPaid call.2 ≠ Some Js.Null)
                [(1000, b1_fields); (2000, b2_fields)])
    by (repeat constructor; discriminate).
  assert (E : bookings w_created = ledger_of [(1000, b1_fields); (2000, b2_fields)])
    by reflexivity.
  split; [exact H|]. split; [exact E|]. split.
  - exact (job_inert_on_created_ledger w_created _ "b1" H E).
  - exact (job_inert_on_created_ledger w_created _ "b2" H E).
Defined.

(** A Booking created with [isPaid: null] is the exception: the schema
    stores the [null], and the job releases its seats and deletes it. *)
Example job_releases_null_isPaid :
  bookings w_unpaid = ledger_of [(1000, Booking.mkFields "b1" "u1" "X" 400
                                          ["A1"; "A2"] (Some Js.Null) None)]
  ∧ bookings (releaseSeatsAndDeleteBooking "b1" w_unpaid).2 = []
  ∧ holder (releaseSeatsAndDeleteBooking "b1" w_unpaid).2 "X" "A1" = None.
Proof. done. Qed.

(** ** Seat release as a map operation *)

(** The released map depends only on which labels are listed, not on
    their order or on repetitions. *)
Theorem release_seats_depends_on_label_set (seats seats' : list string)
    (occ : gmap string string) :
  (∀ k, k ∈ seats ↔ k ∈ seats') →
  release_seats seats occ = release_seats seats' occ.
Proof.
  intros H. apply map_eq. intros k. rewrite !release_seats_lookup.
  destruct (decide (k ∈ seats)) as [Hin|Hnin];
    destruct (decide (k ∈ seats')) as [Hin'|Hnin']; try done.
  - exfalso. by apply Hnin', H.
  - exfalso. by apply Hnin, H.
Qed.

Lemma release_seats_depends_on_label_set_witness :
  (∀ k : string, k ∈ ["A1"; "A2"; "A1"] ↔ k ∈ ["A2"; "A1"])
  ∧ release_seats ["A1"; "A2"; "A1"] (Show.occupiedSeats showX)
    = release_seats ["A2"; "A1"] (Show.occupiedSeats showX).
Proof.
  assert (H : ∀ k : string, k ∈ ["A1"; "A2"; "A1"] ↔ k ∈ ["A2"; "A1"]).
  { intros k. rewrite !elem_of_cons, !elem_of_nil. tauto. }
  split; [exact H|].
  exact (release_seats_depends_on_label_set _ _ (Show.occupiedSeats showX) H).
Defined.

(** Releasing only removes entries: the occupied labels afterwards are
    exactly the former ones minus the listed ones, and every remaining
    entry is an entry of the original map. *)
Theorem release_seats_only_removes (seats : list string) (occ : gmap string string) :
  dom (release_seats seats occ) = dom occ ∖ list_to_set seats
  ∧ release_seats seats occ ⊆ occ.
Proof.
  split.
  - apply set_eq. intros k.
    rewrite elem_of_difference, !elem_of_dom, elem_of_list_to_set,
      release_seats_lookup.
    destruct (decide (k ∈ seats)) as [Hin|Hnin].
    + split; [by intros [? ?]|tauto].
    + tauto.
  - apply map_subseteq_spec. intros k v. rewrite release_seats_lookup.
    by destruct (decide (k ∈ seats)).
Qed.

(** Releasing two lists one after the other is releasing their
    concatenation. *)
Theorem release_seats_app (l1 l2 : list string) (occ : gmap string string) :
  release_seats (l1 ++ l2) occ = release_seats l2 (release_seats l1 occ).
Proof. unfold release_seats. apply foldl_app. Qed.

(** ** The bookings collection *)

Lemma Booking_findById_app (id : string) (c c' : list Booking.doc) :
  Booking.findById id (c ++ c')
  = match Booking.findById id c with
    | Some b => Some b
    | None => Booking.findById id c'
    end.
Proof.
  induction c as [|d c IH]; simpl; [done|].
  by destruct (String.eqb (Booking._id d) id).
Qed.

(** Creating a Booking under a fresh id makes exactly that document
    findable under the id, changes no other lookup and keeps ids
    unique. *)
Theorem Booking_create_then_find (now : Z) (f : Booking.fields) (c : list Booking.doc) :
  Booking.f_id f ∉ (Booking._id <$> c) →
  Booking.findById (Booking.f_id f) (Booking.create now f c)
  = Some (Booking.new Booking.bookingSchema now f)
  ∧ (∀ other, other ≠ Booking.f_id f →
       Booking.findById other (Booking.create now f c) = Booking.findById other c)
  ∧ (NoDup (Booking._id <$> c) →
     NoDup (Booking._id <$> Booking.create now f c)).
Proof.
  intros Hfresh. unfold Booking.create. split_and!.
  - rewrite Booking_findById_app, (Booking_findById_None _ _ Hfresh). simpl.
    by rewrite String.eqb_refl.
  - intros other Hne. rewrite Booking_findById_app.
    destruct (Booking.findById other c); [done|]. simpl.
    destruct (String.eqb_spec (Booking.f_id f) other); [congruence|done].
  - intros Hnd. rewrite fmap_app. apply NoDup_app. split_and!; [done| |].
    + intros x Hx Hx'. simpl in Hx'. apply list_elem_of_singleton in Hx'.
      by subst x.
    + simpl. apply NoDup_singleton.
Qed.

Lemma Booking_create_then_find_witness :
  (Booking.f_id b2_fields ∉ (Booking._id <$> Booking.create 1000 b1_fields []))
  ∧ Booking.findById "b2" (Booking.create 2000 b2_fields (Booking.create 1000 b1_fields []))
    = Some (Booking.new Booking.bookingSchema 2000 b2_fields)
  ∧ Booking.findById "b1" (Booking.create 2000 b2_fields (Booking.create 1000 b1_fields []))
    = Some (Booking.new Booking.bookingSchema 1000 b1_fields).
Proof.
  assert (H : Booking.f_id b2_fields ∉ (Booking._id <$> Booking.create 1000 b1_fields [])).
  { simpl. intros H. apply list_elem_of_singleton in H. discriminate H. }
  split; [exact H|]. split.
  - exact (proj1 (Booking_create_then_find 2000 b2_fields _ H)).
  - rewrite (proj1 (proj2 (Booking_create_then_find 2000 b2_fields _ H)) "b1");
      [reflexivity|discriminate].
Defined.

Lemma Booking_delete_missing (id : string) (c : list Booking.doc) :
  id ∉ (Booking._id <$> c) → Booking.findByIdAndDelete id c = c.
Proof.
  induction c as [|d c IH]; simpl; [done|].
  rewrite not_elem_of_cons. intros [Hne Hnin].
  destruct (String.eqb_spec (Booking._id d) id); [congruence|].
  by rewrite IH.
Qed.

(** Create followed by delete is a round trip: deleting a Booking that
    was just created under a fresh id gives back the collection as it
    was, document for document. *)
Theorem Booking_create_then_delete (now : Z) (f : Booking.fields) (c : list Booking.doc) :
  Booking.f_id f ∉ (Booking._id <$> c) →
  Booking.findByIdAndDelete (Booking.f_id f) (Booking.create now f c) = c.
Proof.
  intros Hfresh. unfold Booking.create.
  induction c as [|d c IH]; simpl.
  - by rewrite String.eqb_refl.
  - simpl in Hfresh. apply not_elem_of_cons in Hfresh as [Hne Hnin].
    destruct (String.eqb_spec (Booking._id d) (Booking.f_id f)); [congruence|].
    by rewrite IH.
Qed.

Lemma Booking_create_then_delete_witness :
  (Booking.f_id b2_fields ∉ (Booking._id <$> Booking.create 1000 b1_fields []))
  ∧ Booking.findByIdAndDelete "b2"
      (Booking.create 2000 b2_fields (Booking.create 1000 b1_fields []))
    = Booking.create 1000 b1_fields [].
Proof.
  assert (H : Booking.f_id b2_fields ∉ (Booking._id <$> Booking.create 1000 b1_fields [])).
  { simpl. intros H. apply list_elem_of_singleton in H. discriminate H. }
  split; [exact H|].
  exact (Booking_create_then_delete 2000 b2_fields _ H).
Defined.

(** With unique ids, a deleted Booking can no longer be found, every
    other lookup is as before, and deleting an id that is not there
    changes nothing. *)
Theorem Booking_delete_then_find (id : string) (c : list Booking.doc) :
  NoDup (Booking._id <$> c) →
  Booking.findById id (Booking.findByIdAndDelete id c) = None
  ∧ (∀ other, other ≠ id →
       Booking.findById other (Booking.findByIdAndDelete id c)
       = Booking.findById other c)
  ∧ (Booking.findById id c = None → Booking.findByIdAndDelete id c = c).
Proof.
  intros Hnd. split_and!.
  - by apply Booking_deleted_gone.
  - intros other Hne. by apply Booking_delete_other.
  - intros Hnone. clear Hnd. induction c as [|d c IH]; simpl; [done|].
    simpl in Hnone. destruct (String.eqb (Booking._id d) id); [done|].
    by rewrite IH.
Qed.

Lemma Booking_delete_then_find_witness :
  NoDup (Booking._id <$> bookings w_orphan)
  ∧ Booking.findById "b1" (Booking.findByIdAndDelete "b1" (bookings w_orphan)) = None
  ∧ Booking.findById "b3" (Booking.findByIdAndDelete "b1" (bookings w_orphan))
    = Some b3_orphan.
Proof.
  assert (Hnd : NoDup (Booking._id <$> bookings w_orphan)).
  { simpl. apply NoDup_cons. split; [|apply NoDup_singleton].
    intros H. apply list_elem_of_singleton in H. discriminate H. }
  split; [exact Hnd|]. split.
  - exact (proj1 (Booking_delete_then_find "b1" _ Hnd)).
  - rewrite (proj1 (proj2 (Booking_delete_then_find "b1" _ Hnd)) "b3");
      [reflexivity|discriminate].
Defined.

(** ** makeRequestWithRetry *)

Lemma retry_loop_success {R} (url : string) (get : nat → AxiosError + R)
    (retries fuel : nat) (r : R) :
  retry_loop url get retries fuel = inr r
  ↔ ∃ k, (k < fuel)%nat ∧ get (retries + k)%nat = inr r
         ∧ ∀ j, (j < k)%nat → retryable_failure get (retries + j)%nat.
Proof.
  revert retries. induction fuel as [|fuel IH]; intros retries; simpl.
  - split; [done|]. intros (k & Hk & _). lia.
  - destruct (get retries) as [error|response] eqn:G.
    + destruct (retryable (code error)) eqn:Rt.
      * rewrite IH. split.
        -- intros (k & Hk & Hget & Hpre). exists (S k). split; [lia|].
           split; [by rewrite Nat.add_succ_r|].
           intros [|j] Hj.
           ++ rewrite Nat.add_0_r. by exists error.
           ++ rewrite Nat.add_succ_r. apply Hpre. lia.
        -- intros (k & Hk & Hget & Hpre). destruct k as [|k].
           ++ rewrite Nat.add_0_r in Hget. congruence.
           ++ exists k. split; [lia|]. rewrite Nat.add_succ_r in Hget.
              split; [done|]. intros j Hj.
              specialize (Hpre (S j)). rewrite Nat.add_succ_r in Hpre.
              apply Hpre. lia.
      * split; [done|]. intros (k & Hk & Hget & Hpre). destruct k as [|k].
        -- rewrite Nat.add_0_r in Hget. congruence.
        -- destruct (Hpre 0%nat) as (e & He & Hr); [lia|].
           rewrite Nat.add_0_r in He. congruence.
    + split.
      * intros [= ->]. exists 0%nat. split; [lia|]. rewrite Nat.add_0_r.
        split; [done|]. intros j Hj. lia.
      * intros (k & Hk & Hget & Hpre). destruct k as [|k].
        -- rewrite Nat.add_0_r in Hget. congruence.
        -- destruct (Hpre 0%nat) as (e & He & Hr); [lia|].
           rewrite Nat.add_0_r in He. congruence.
Qed.

(** [makeRequestWithRetry] returns a response exactly when one of the
    first six attempts succeeds and every attempt before it failed with
    ECONNRESET, ETIMEDOUT or ERR_NETWORK; the response returned is that
    of the first successful attempt. *)
Theorem makeRequestWithRetry_response {R} (url : string)
    (get : nat → AxiosError + R) (r : R) :
  makeRequestWithRetry url get = inr r
  ↔ ∃ k, (k < 6)%nat ∧ get k = inr r
         ∧ ∀ j, (j < k)%nat → retryable_failure get j.
Proof. unfold makeRequestWithRetry. apply (retry_loop_success url get 0 6 r). Qed.

Lemma makeRequestWithRetry_response_witness :
  makeRequestWithRetry "https://api.themoviedb.org/3/movie/now_playing"
    (flaky "results") = inr "results".
Proof.
  apply (proj2 (makeRequestWithRetry_response _ (flaky "results") "results")).
  exists 2%nat. split; [lia|]. split; [reflexivity|].
  intros j Hj. exists (mkAxiosError ECONNRESET "socket hang up").
  split; [|reflexivity].
  destruct j as [|[|j]]; [reflexivity|reflexivity|lia].
Defined.

Lemma retry_loop_fatal {R} (url : string) (get : nat → AxiosError + R)
    (retries fuel k : nat) (error : AxiosError) :
  (k < fuel)%nat →
  get (retries + k)%nat = inl error →
  retryable (code error) = false →
  (∀ j, (j < k)%nat → retryable_failure get (retries + j)%nat) →
  retry_loop url get retries fuel = inl (Js.Error (err_message error)).
Proof.
  revert retries k. induction fuel as [|fuel IH]; intros retries k Hk Hget Hr Hpre;
    [lia|]. simpl.
  destruct k as [|k].
  - rewrite Nat.add_0_r in Hget. by rewrite Hget, Hr.
  - destruct (Hpre 0%nat) as (e & He & Hre); [lia|].
    rewrite Nat.add_0_r in He. rewrite He, Hre.
    apply (IH (S retries) k); [lia| | |].
    + by rewrite Nat.add_succ_r in Hget.
    + done.
    + intros j Hj. specialize (Hpre (S j)). rewrite Nat.add_succ_r in Hpre.
      apply Hpre. lia.
Qed.

(** An error that is not retryable (a certificate error, an HTTP 4xx or
    5xx, ...) at one of the first six attempts, after retryable failures
    only, is rethrown with its own message, and no later attempt is
    made: the outcome does not depend on what later attempts would
    give. *)
Theorem makeRequestWithRetry_fatal {R} (url : string)
    (get : nat → AxiosError + R) (k : nat) (error : AxiosError) :
  (k < 6)%nat →
  get k = inl error →
  retryable (code error) = false →
  (∀ j, (j < k)%nat → retryable_failure get j) →
  makeRequestWithRetry url get = inl (Js.Error (err_message error))
  ∧ makeRequestWithRetry_waits get
    = (λ j, 500 * 2 ^ Z.of_nat j) <$> seq 0 k.
Proof.
  intros Hk Hget Hr Hpre. split.
  - by apply (retry_loop_fatal url get 0 6 k error).
  - unfold makeRequestWithRetry_waits.
    enough (G : ∀ fuel retries k, (k < fuel)%nat →
              get (retries + k)%nat = inl error →
              (∀ j, (j < k)%nat → retryable_failure get (retries + j)%nat) →
              retry_waits get retries fuel
              = (λ j, 500 * 2 ^ Z.of_nat j) <$> seq retries k)
      by (by apply (G 6%nat 0%nat k)).
    clear Hk Hget Hpre k.
    induction fuel as [|fuel IH]; intros retries k Hk Hget Hpre; [lia|]. simpl.
    destruct k as [|k].
    + rewrite Nat.add_0_r in Hget. by rewrite Hget, Hr.
    + destruct (Hpre 0%nat) as (e & He & Hre); [lia|].
      rewrite Nat.add_0_r in He. rewrite He, Hre. simpl. f_equal.
      apply IH; [lia| |].
      * by rewrite Nat.add_succ_r in Hget.
      * intros j Hj. specialize (Hpre (S j)). rewrite Nat.add_succ_r in Hpre.
        apply Hpre. lia.
Qed.

Lemma makeRequestWithRetry_fatal_witness :
  makeRequestWithRetry (R:=string) "https://api.themoviedb.org/3/movie/now_playing"
    unauthorized_after_timeout
  = inl (Js.Error "Request failed with status code 401")
  ∧ makeRequestWithRetry_waits (R:=string) unauthorized_after_timeout = [500].
Proof.
  apply (makeRequestWithRetry_fatal (R:=string) _ unauthorized_after_timeout 1
           (mkAxiosError OtherCode "Request failed with status code 401"));
    [lia|reflexivity|reflexivity|].
  intros j Hj. exists (mkAxiosError ETIMEDOUT "timeout of 0ms exceeded").
  split; [|reflexivity]. destruct j; [reflexivity|lia].
Defined.

(** When each of the six attempts fails with a retryable error the
    function gives up with its own "Failed to fetch" error, having
    waited 500, 1000, 2000, 4000, 8000 and 16000 ms: 31.5 seconds in
    all. *)
Theorem makeRequestWithRetry_gives_up {R} (url : string)
    (get : nat → AxiosError + R) :
  (∀ j, (j < 6)%nat → retryable_failure get j) →
  makeRequestWithRetry url get
  = inl (Js.Error ("Failed to fetch data from " +:+ url +:+ " after 6 attempts."))
  ∧ makeRequestWithRetry_waits get = [500; 1000; 2000; 4000; 8000; 16000]
  ∧ sum_Z (makeRequestWithRetry_waits get) = 31500.
Proof.
  intros H.
  destruct (H 0%nat) as (e0 & G0 & R0); [lia|].
  destruct (H 1%nat) as (e1 & G1 & R1); [lia|].
  destruct (H 2%nat) as (e2 & G2 & R2); [lia|].
  destruct (H 3%nat) as (e3 & G3 & R3); [lia|].
  destruct (H 4%nat) as (e4 & G4 & R4); [lia|].
  destruct (H 5%nat) as (e5 & G5 & R5); [lia|].
  unfold makeRequestWithRetry, makeRequestWithRetry_waits. simpl.
  rewrite G0, R0, G1, R1, G2, R2, G3, R3, G4, R4, G5, R5. done.
Qed.

Lemma makeRequestWithRetry_gives_up_witness :
  (∀ j, (j < 6)%nat → retryable_failure (tmdb_down (R:=string) "m9") j)
  ∧ makeRequestWithRetry "u" (tmdb_down (R:=string) "m9")
    = inl (Js.Error "Failed to fetch data from u after 6 attempts.").
Proof.
  assert (H : ∀ j, (j < 6)%nat → retryable_failure (tmdb_down (R:=string) "m9") j).
  { intros j _. eexists. split; reflexivity. }
  split; [exact H|].
  exact (proj1 (makeRequestWithRetry_gives_up "u" _ H)).
Defined.

Lemma retry_waits_bound {R} (get : nat → AxiosError + R) (retries fuel : nat) :
  sum_Z (retry_waits get retries fuel)
  ≤ 500 * (2 ^ Z.of_nat (retries + fuel) - 2 ^ Z.of_nat retries)
  ∧ (length (retry_waits get retries fuel) ≤ fuel)%nat.
Proof.
  revert retries. induction fuel as [|fuel IH]; intros retries; simpl.
  - rewrite Nat.add_0_r. split; lia.
  - assert (P : 2 ^ Z.of_nat retries ≤ 2 ^ Z.of_nat (retries + S fuel)).
    { apply Z.pow_le_mono_r; lia. }
    destruct (get retries) as [error|response]; simpl; [|split; lia].
    destruct (retryable (code error)); simpl; [|split; lia].
    destruct (IH (S retries)) as [IHs IHl].
    replace (S retries + fuel)%nat with (retries + S fuel)%nat in IHs by lia.
    replace (Z.of_nat (S retries)) with (Z.of_nat retries + 1) in IHs by lia.
    rewrite Z.pow_add_r in IHs by lia.
    unfold sum_Z in *. split; lia.
Qed.

(** Whatever the endpoint does, [makeRequestWithRetry] sleeps at most
    six times and for at most 31.5 seconds in total. *)
Theorem makeRequestWithRetry_total_wait {R} (get : nat → AxiosError + R) :
  (length (makeRequestWithRetry_waits get) ≤ 6)%nat
  ∧ sum_Z (makeRequestWithRetry_waits get) ≤ 31500.
Proof.
  unfold makeRequestWithRetry_waits.
  destruct (retry_waits_bound get 0 6) as [Hs Hl]. split; [done|].
  replace (500 * (2 ^ Z.of_nat (0 + 6) - 2 ^ Z.of_nat 0)) with 31500 in Hs
    by reflexivity.
  exact Hs.
Qed.

(** No more than six attempts are ever made: two endpoints that agree
    on their first six attempts give the same outcome. *)
Theorem makeRequestWithRetry_six_attempts {R} (url : string)
    (get get' : nat → AxiosError + R) :
  (∀ n, (n < 6)%nat → get n = get' n) →
  makeRequestWithRetry url get = makeRequestWithRetry url get'.
Proof.
  intros H. unfold makeRequestWithRetry.
  enough (G : ∀ fuel retries, (retries + fuel ≤ 6)%nat →
            retry_loop url get retries fuel = retry_loop url get' retries fuel)
    by (apply G; lia).
  induction fuel as [|fuel IH]; intros retries Hle; simpl; [done|].
  rewrite <- H by lia.
  destruct (get retries) as [error|]; [|done].
  destruct (retryable (code error)); [|done].
  apply IH. lia.
Qed.

Lemma makeRequestWithRetry_six_attempts_witness :
  (∀ n, (n < 6)%nat →
     tmdb_down (R:=string) "m9" n
     = (λ n, if (n <? 6)%nat then tmdb_down "m9" n else inr "late answer") n)
  ∧ makeRequestWithRetry "u" (tmdb_down (R:=string) "m9")
    = makeRequestWithRetry "u"
        (λ n, if (n <? 6)%nat then tmdb_down "m9" n else inr "late answer").
Proof.
  assert (H : ∀ n, (n < 6)%nat →
     tmdb_down (R:=string) "m9" n
     = (λ n, if (n <? 6)%nat then tmdb_down "m9" n else inr "late answer") n).
  { intros n Hn. simpl. apply Nat.ltb_lt in Hn. by rewrite Hn. }
  split; [exact H|].
  exact (makeRequestWithRetry_six_attempts "u" _ _ H).
Defined.

(** ** addShow: failures, frames, ids *)

Section ShowControllerMore.

Variable Date_new : string → option Z.
Variable ObjectId : nat → string.
Variable tmdb_movie : string → nat → AxiosError + MovieApiData.
Variable tmdb_credits : string → nat → AxiosError + list string.
Variable credits_rejects_first : string → bool.
Variable insertMany_rejection : string.

Abbreviation addShow'' :=
  (addShow Date_new ObjectId tmdb_movie tmdb_credits credits_rejects_first
     insertMany_rejection).

Abbreviation details_of id :=
  (makeRequestWithRetry ("https://api.themoviedb.org/3/movie/" +:+ id)
     (tmdb_movie id)).

Abbreviation credits_of id :=
  (makeRequestWithRetry
     (("https://api.themoviedb.org/3/movie/" +:+ id) +:+ "/credits")
     (tmdb_credits id)).

(** What a call can have done to the world: at most one Movie appended,
    a batch of Shows with fresh consecutive ids and no occupied seat
    appended, events appended, nothing else. *)
Lemma addShow_effect (req : AddShowBody) (w : World) :
  ∃ ms l es,
    movies (addShow'' req w).2 = movies w ++ ms
    ∧ (length ms ≤ 1)%nat
    ∧ shows (addShow'' req w).2 = shows w ++ assign_ids ObjectId (next_oid w) l
    ∧ next_oid (addShow'' req w).2 = (next_oid w + length l)%nat
    ∧ bookings (addShow'' req w).2 = bookings w
    ∧ sent (addShow'' req w).2 = sent w ++ es.
Proof.
  unfold addShow, try_catch.
  destruct (not_string (movieId req) || no_slots (showsInput req)
            || not_number (showPrice req)); simpl.
  { exists [], [], []. rewrite !app_nil_r, Nat.add_0_r. simpl.
    split_and!; try done; lia. }
  unfold mbind, M_bind, bind, Movie_findById, lift, Show_insertMany. simpl.
  destruct (Movie.findById _ _); simpl.
  - destruct (0 <? _)%nat eqn:L; simpl.
    + destruct (mapM validated _) as [valid|]; simpl.
      * exists [], valid. eexists [_]. rewrite (app_nil_r (movies w)). simpl.
        split_and!; try done; lia.
      * exists [], [], []. rewrite !app_nil_r, Nat.add_0_r. simpl.
        split_and!; try done; lia.
    + exists [], []. eexists [_]. unfold assign_ids. simpl.
      rewrite ?app_nil_r, ?Nat.add_0_r. split_and!; try done; lia.
  - destruct (Promise_all _ _ _) as [e|[d c]]; simpl.
    { exists [], [], []. rewrite !app_nil_r, Nat.add_0_r. simpl.
      split_and!; try done; lia. }
    destruct (0 <? _)%nat eqn:L; simpl.
    + destruct (mapM validated _) as [valid|]; simpl.
      * eexists [_], valid. eexists [_]. unfold Movie.create. simpl.
        split_and!; try done; lia.
      * eexists [_], [], []. unfold Movie.create, assign_ids. simpl.
        rewrite ?app_nil_r, ?Nat.add_0_r. split_and!; try done; lia.
    + eexists [_], []. eexists [_]. unfold Movie.create, assign_ids. simpl.
      rewrite ?app_nil_r, ?Nat.add_0_r. split_and!; try done; lia.
Qed.

(** [addShow] only appends: the stored Shows (with their occupied seats)
    and Movies stay as a prefix of the new collections, the Bookings are
    untouched, and sent events are never retracted.  This holds for
    every request, accepted or not. *)
Theorem addShow_only_appends (req : AddShowBody) (w : World) :
  shows w `prefix_of` shows (addShow'' req w).2
  ∧ movies w `prefix_of` movies (addShow'' req w).2
  ∧ bookings (addShow'' req w).2 = bookings w
  ∧ sent w `prefix_of` sent (addShow'' req w).2.
Proof.
  destruct (addShow_effect req w) as (ms & l & es & Hm & _ & Hs & _ & Hb & He).
  rewrite Hm, Hs, Hb, He. split_and!; try done; by eexists.
Qed.

Lemma assign_ids_ids (from : nat) (l : list Show.doc) :
  Show._id <$> assign_ids ObjectId from l = ObjectId <$> seq from (length l).
Proof.
  unfold assign_ids. revert from.
  induction l as [|d l IH]; intros from; simpl; [done|].
  rewrite Nat.add_0_r. f_equal.
  rewrite <- IH. f_equal. apply imap_ext. intros i x _. simpl.
  do 2 f_equal. lia.
Qed.

(** Show ids stay unique: if the driver's ObjectIds are pairwise
    distinct and every stored Show carries an id the counter has handed
    out, the same holds after [addShow], and no two Shows share an
    id. *)
Theorem addShow_keeps_show_ids_unique (req : AddShowBody) (w : World) :
  Inj (=) (=) ObjectId →
  show_ids_issued ObjectId w →
  NoDup (Show._id <$> shows w) →
  show_ids_issued ObjectId (addShow'' req w).2
  ∧ NoDup (Show._id <$> shows (addShow'' req w).2).
Proof.
  intros Hinj Hwf Hnd. unfold show_ids_issued in *.
  destruct (addShow_effect req w) as (ms & l & es & _ & _ & Hs & Hn & _ & _).
  rewrite Hs, Hn. split.
  - apply Forall_app. split.
    + eapply Forall_impl; [exact Hwf|]. simpl. intros s (k & Hk & E).
      exists k. split; [lia|done].
    + apply Forall_forall. intros s Hin.
      assert (Hid : Show._id s ∈ Show._id <$> assign_ids ObjectId (next_oid w) l)
        by (apply list_elem_of_fmap; by exists s).
      rewrite assign_ids_ids in Hid.
      apply list_elem_of_fmap in Hid as (k & E & Hk).
      apply elem_of_seq in Hk. exists k. split; [lia|done].
  - rewrite fmap_app. apply NoDup_app. split_and!; [done| |].
    + intros x Hx Hx'. rewrite assign_ids_ids in Hx'.
      apply list_elem_of_fmap in Hx' as (k & -> & Hk). apply elem_of_seq in Hk.
      apply list_elem_of_fmap in Hx as (s & E & Hs').
      rewrite Forall_forall in Hwf. destruct (Hwf s Hs') as (k' & Hk' & E').
      rewrite E' in E. apply Hinj in E. lia.
    + rewrite assign_ids_ids. apply NoDup_fmap; [done|]. apply NoDup_seq.
Qed.

(** When the movie is not stored and at least one of the two TMDB
    requests fails, [addShow] answers 500 and has created nothing: no
    Movie, no Show, no event.  The two requests run together and the
    message is that of the rejection [Promise.all] sees first: of the
    details request when the credits request succeeds or rejects later,
    of the credits request when the details request succeeds or rejects
    later. *)
Theorem addShow_tmdb_failure (req : AddShowBody) (w : World) (id : string) :
  ¬ fields_falsy req →
  movieId req = Some id →
  Movie.findById id (movies w) = None →
  (∀ e, details_of id = inl e →
        (∃ c, credits_of id = inr c) ∨ credits_rejects_first id = false →
        addShow'' req w = (inr (mkResponse 500 (Message false (exn_message e))), w))
  ∧ (∀ e, credits_of id = inl e →
          (∃ d, details_of id = inr d) ∨ credits_rejects_first id = true →
          addShow'' req w = (inr (mkResponse 500 (Message false (exn_message e))), w))
  ∧ ((∃ e, details_of id = inl e) ∨ (∃ e, credits_of id = inl e) →
     ∃ msg, addShow'' req w = (inr (mkResponse 500 (Message false msg)), w)).
Proof.
  intros Hn Hid Hm. rewrite <- guard_falsy in Hn.
  apply not_true_is_false in Hn.
  unfold addShow, try_catch. rewrite Hn, Hid. simpl.
  unfold mbind, M_bind, bind, Movie_findById, lift. simpl. rewrite Hm. simpl.
  destruct (makeRequestWithRetry _ (tmdb_movie id)) as [e1|d];
    destruct (makeRequestWithRetry _ (tmdb_credits id)) as [e2|c]; simpl.
  - split_and!.
    + intros e [= <-] [[c Hc]| ->]; [done|done].
    + intros e [= <-] [[d Hd]| ->]; [done|done].
    + intros _. by eexists.
  - split_and!.
    + by intros e [= <-] _.
    + by intros e [=].
    + intros _. by eexists.
  - split_and!.
    + by intros e [=].
    + by intros e [= <-] _.
    + intros _. by eexists.
  - split_and!.
    + by intros e [=].
    + by intros e [=].
    + by intros [[e [=]]|[e [=]]].
Qed.

End ShowControllerMore.

Lemma unary_ObjectId_inj : Inj (=) (=) unary_ObjectId.
Proof.
  intros a b. unfold unary_ObjectId. simpl. intros [= E].
  revert b E. induction a as [|a IH]; intros [|b] E; simpl in E; try done.
  injection E as E. f_equal. by apply IH.
Qed.

Lemma addShow_keeps_show_ids_unique_witness :
  Inj (=) (=) unary_ObjectId
  ∧ show_ids_issued unary_ObjectId w_unary
  ∧ NoDup (Show._id <$> shows w_unary)
  ∧ NoDup (Show._id <$>
             shows (addShow sample_Date_new unary_ObjectId tmdb_down tmdb_down
                      details_first sample_rejection two_dates_req w_unary).2)
  ∧ Show._id <$>
      shows (addShow sample_Date_new unary_ObjectId tmdb_down tmdb_down
               details_first sample_rejection two_dates_req w_unary).2
    = ["oid"; "oidx"; "oidxx"; "oidxxx"].
Proof.
  assert (H1 : show_ids_issued unary_ObjectId w_unary).
  { constructor; [|constructor]. exists 0%nat. split; [simpl; lia|reflexivity]. }
  assert (H2 : NoDup (Show._id <$> shows w_unary)) by apply NoDup_singleton.
  split; [exact unary_ObjectId_inj|]. split; [exact H1|]. split; [exact H2|].
  split; [|reflexivity].
  exact (proj2 (addShow_keeps_show_ids_unique sample_Date_new unary_ObjectId
                  tmdb_down tmdb_down details_first sample_rejection
                  two_dates_req w_unary
                  unary_ObjectId_inj H1 H2)).
Defined.

Lemma new_movie_req_not_falsy : ¬ fields_falsy new_movie_req.
Proof. intros [H|[H|[H|[H|[H|H]]]]]; discriminate H. Qed.

Lemma addShow_tmdb_failure_witness :
  ¬ fields_falsy new_movie_req
  ∧ movieId new_movie_req = Some "m9"
  ∧ Movie.findById "m9" (movies w_catalog) = None
  ∧ addShow sample_Date_new sample_ObjectId
      (λ _, unauthorized_after_timeout) not_found_at_once
      credits_first sample_rejection new_movie_req w_catalog
    = (inr (mkResponse 500 (Message false "Request failed with status code 404")),
       w_catalog)
  ∧ addShow sample_Date_new sample_ObjectId
      (λ _, unauthorized_after_timeout) not_found_at_once
      details_first sample_rejection new_movie_req w_catalog
    = (inr (mkResponse 500 (Message false "Request failed with status code 401")),
       w_catalog)
  ∧ addShow sample_Date_new sample_ObjectId tmdb_up tmdb_down
      details_first sample_rejection new_movie_req w_catalog
    = (inr (mkResponse 500
              (Message false
                 "Failed to fetch data from https://api.themoviedb.org/3/movie/m9/credits after 6 attempts.")),
       w_catalog).
Proof.
  split; [exact new_movie_req_not_falsy|]. split; [reflexivity|].
  split; [reflexivity|]. split_and!.
  - apply (proj1 (proj2 (addShow_tmdb_failure sample_Date_new sample_ObjectId
             (λ _, unauthorized_after_timeout) not_found_at_once
             credits_first sample_rejection new_movie_req w_catalog "m9"
             new_movie_req_not_falsy eq_refl eq_refl))
           (Js.Error "Request failed with status code 404"));
      [reflexivity|by right].
  - apply (proj1 (addShow_tmdb_failure sample_Date_new sample_ObjectId
             (λ _, unauthorized_after_timeout) not_found_at_once
             details_first sample_rejection new_movie_req w_catalog "m9"
             new_movie_req_not_falsy eq_refl eq_refl)
           (Js.Error "Request failed with status code 401"));
      [reflexivity|by right].
  - apply (proj1 (proj2 (addShow_tmdb_failure sample_Date_new sample_ObjectId
             tmdb_up tmdb_down
             details_first sample_rejection new_movie_req w_catalog "m9"
             new_movie_req_not_falsy eq_refl eq_refl))
           (Js.Error "Failed to fetch data from https://api.themoviedb.org/3/movie/m9/credits after 6 attempts."));
      [reflexivity|left; by eexists].
Defined.

(** Once the movie is stored, [addShow] does not consult TMDB: its
    outcome is the same whatever TMDB would answer. *)
Theorem addShow_stored_movie_ignores_tmdb (Date_new : string → option Z)
    (ObjectId : nat → string)
    (tmdb_movie tmdb_movie' : string → nat → AxiosError + MovieApiData)
    (tmdb_credits tmdb_credits' : string → nat → AxiosError + list string)
    (credits_rejects_first credits_rejects_first' : string → bool)
    (insertMany_rejection : string)
    (req : AddShowBody) (w : World) (id : string) :
  movieId req = Some id →
  is_Some (Movie.findById id (movies w)) →
  addShow Date_new ObjectId tmdb_movie tmdb_credits credits_rejects_first
    insertMany_rejection req w
  = addShow Date_new ObjectId tmdb_movie' tmdb_credits' credits_rejects_first'
      insertMany_rejection req w.
Proof.
  intros Hid [m Hm]. unfold addShow, try_catch. rewrite Hid. simpl.
  destruct (_ || _ || _); [done|].
  unfold mbind, M_bind, bind, Movie_findById, lift. simpl. by rewrite Hm.
Qed.

Lemma addShow_stored_movie_ignores_tmdb_witness :
  movieId two_dates_req = Some "m1"
  ∧ is_Some (Movie.findById "m1" (movies w_catalog))
  ∧ addShow sample_Date_new sample_ObjectId tmdb_down tmdb_down
      details_first sample_rejection two_dates_req w_catalog
    = addShow sample_Date_new sample_ObjectId tmdb_up tmdb_cast_up
        credits_first sample_rejection two_dates_req w_catalog.
Proof.
  assert (H : is_Some (Movie.findById "m1" (movies w_catalog))) by by eexists.
  split; [reflexivity|]. split; [exact H|].
  apply (addShow_stored_movie_ignores_tmdb _ _ _ _ _ _ _ _ _
           two_dates_req w_catalog "m1");
    [reflexivity|exact H].
Defined.

Lemma Movie_findById_app (id : string) (c c' : list Movie.doc) :
  Movie.findById id (c ++ c')
  = match Movie.findById id c with
    | Some m => Some m
    | None => Movie.findById id c'
    end.
Proof.
  induction c as [|d c IH]; simpl; [done|].
  by destruct (String.eqb (Movie._id d) id).
Qed.

Lemma getShows_entries (now : Z) (w : World) :
  getShows now w
  = (inr (mkResponse 200
            (ShowsBody true
               (omap (λ s, Movie.findById (Show.movie s) (movies w))
                     (first_occurrences w [] (upcoming now w))))), w).
Proof.
  unfold getShows, try_catch, mbind, M_bind, bind, Show_find_upcoming. simpl.
  do 4 f_equal. unfold uniqueMovies.
  rewrite (uniqueMovies_fold w _ []). simpl. unfold Map_values.
  fold (upcoming now w).
  induction (first_occurrences w [] (upcoming now w)) as [|f fs IH]; simpl; [done|].
  destruct (Movie.findById (Show.movie f) (movies w)); simpl;
    [f_equal; exact IH|exact IH].
Qed.

(** Whatever is stored, a Show that starts at or after [now] and whose
    movie reference resolves puts that Movie on the list [getShows]
    returns. *)
Lemma getShows_lists_movie (now : Z) (w : World) (s : Show.doc) (m : Movie.doc) :
  s ∈ shows w → now ≤ Show.showDateTime s →
  Movie.findById (Show.movie s) (movies w) = Some m →
  ∃ ms, (getShows now w).1 = inr (mkResponse 200 (ShowsBody true ms)) ∧ m ∈ ms.
Proof.
  intros Hs Hnow Hm. rewrite getShows_entries. simpl. eexists. split; [done|].
  assert (Hup : s ∈ upcoming now w) by by apply upcoming_elem.
  destruct (first_occurrences_first w [] (upcoming now w) s Hup)
    as (f & _ & _ & Hf & Hmf & _).
  { by eexists. }
  { intros Hx. by apply elem_of_nil in Hx. }
  apply list_elem_of_omap. exists f. split; [done|]. by rewrite Hmf.
Qed.

Section AddThenList.

Variable Date_new : string → option Z.
Variable ObjectId : nat → string.
Variable tmdb_movie : string → nat → AxiosError + MovieApiData.
Variable tmdb_credits : string → nat → AxiosError + list string.
Variable credits_rejects_first : string → bool.
Variable insertMany_rejection : string.

Abbreviation addShowL :=
  (addShow Date_new ObjectId tmdb_movie tmdb_credits credits_rejects_first
     insertMany_rejection).

Lemma addShow_valid_world (req : AddShowBody) (w : World)
    (id : string) (slots : list ShowInput) (price : Z) (m : Movie.doc) :
  movieId req = Some id → id ≠ "" →
  showsInput req = Some slots → slots ≠ [] →
  showPrice req = Some price → price ≠ 0 →
  Forall (λ p, is_Some (Date_new (p.1 +:+ "T" +:+ p.2))) (supplied_pairs slots) →
  resolves_to tmdb_movie tmdb_credits id w m →
  (∃ created,
     shows (addShowL req w).2 = shows w ++ created
     ∧ Forall2 (λ p s, Show.movie s = id
                       ∧ Show.showPrice s = price
                       ∧ Date_new (p.1 +:+ "T" +:+ p.2) = Some (Show.showDateTime s)
                       ∧ Show.occupiedSeats s = ∅)
               (supplied_pairs slots) created)
  ∧ Movie.findById id (movies (addShowL req w).2) = Some m.
Proof.
  intros Hid Hne Hsl Hsne Hp Hpne Hdates Hres.
  assert (G : not_string (movieId req) || no_slots (showsInput req)
              || not_number (showPrice req) = false).
  { rewrite Hid, Hsl, Hp. simpl.
    destruct (String.eqb_spec id ""); [done|].
    destruct slots; [done|]. simpl.
    destruct (Z.eqb_spec price 0); done. }
  destruct (validated_pairs Date_new id price _ Hdates) as (valid & Hv & F).
  rewrite <- showsToCreate_pairs in Hv.
  assert (L0 : (0 <? length (showsToCreate Date_new id price slots))%nat = false →
               valid = []).
  { intros L. apply Nat.ltb_ge in L.
    destruct (showsToCreate Date_new id price slots); [|simpl in L; lia].
    simpl in Hv. by injection Hv as <-. }
  unfold addShow, try_catch. rewrite G, Hid, Hsl, Hp. simpl.
  unfold mbind, M_bind, bind, Movie_findById, lift, Show_insertMany. simpl.
  destruct Hres as [Hm|(Hm & d & c & Hd & Hc & ->)]; rewrite Hm; simpl.
  - destruct (0 <? _)%nat eqn:L; simpl.
    + rewrite Hv. simpl. split; [|done].
      eexists. split; [done|]. by apply assign_ids_pairs.
    + split; [|done]. exists []. rewrite app_nil_r. split; [done|].
      by rewrite <- (L0 eq_refl).
  - rewrite Hd, Hc. simpl.
    assert (Fm : Movie.findById id (Movie.create (MovieDetails id d c) (movies w))
                 = Some (MovieDetails id d c)).
    { unfold Movie.create. rewrite Movie_findById_app, Hm. simpl.
      by rewrite String.eqb_refl. }
    destruct (0 <? _)%nat eqn:L; simpl.
    + rewrite Hv. simpl. split; [|done].
      eexists. split; [done|]. by apply assign_ids_pairs.
    + split; [|done]. exists []. rewrite app_nil_r. split; [done|].
      by rewrite <- (L0 eq_refl).
Qed.

(** Adding and then listing: after a valid [addShow] (every supplied
    date and time a date-time that [new Date] parses) with at least one
    supplied (date, time) at or after [now], [getShows] at [now] lists
    the movie the request resolved to. *)
Theorem addShow_then_getShows (req : AddShowBody) (w : World) (now : Z)
    (id : string) (slots : list ShowInput) (price : Z) (m : Movie.doc)
    (d t : string) (start : Z) :
  movieId req = Some id → id ≠ "" →
  showsInput req = Some slots →
  showPrice req = Some price → price ≠ 0 →
  Forall (λ p, is_Some (Date_new (p.1 +:+ "T" +:+ p.2))) (supplied_pairs slots) →
  resolves_to tmdb_movie tmdb_credits id w m →
  (d, t) ∈ supplied_pairs slots →
  Date_new (d +:+ "T" +:+ t) = Some start →
  now ≤ start →
  ∃ ms,
    (getShows now (addShowL req w).2).1
    = inr (mkResponse 200 (ShowsBody true ms))
    ∧ m ∈ ms.
Proof.
  intros Hid Hne Hsl Hp Hpne Hdates Hres Hin Hstart Hnow.
  assert (Hsne : slots ≠ []).
  { intros ->. by apply elem_of_nil in Hin. }
  destruct (addShow_valid_world req w id slots price m
              Hid Hne Hsl Hsne Hp Hpne Hdates Hres)
    as ((created & Hshows & Hall) & Hmov).
  apply list_elem_of_lookup in Hin as [i Hi].
  destruct (Forall2_lookup_l _ _ _ _ _ Hall Hi) as (s & Hs & Hms & _ & Hts & _).
  simpl in Hts. rewrite Hstart in Hts. injection Hts as Hts.
  apply (getShows_lists_movie now _ s m).
  - rewrite Hshows. apply elem_of_app. right. by eapply list_elem_of_lookup_2.
  - by rewrite <- Hts.
  - by rewrite Hms.
Qed.

End AddThenList.

Lemma addShow_then_getShows_witness :
  movieId new_movie_req = Some "m9"
  ∧ "m9" ≠ ""
  ∧ showsInput new_movie_req = Some [mkShowInput "2025-07-01" (OneTime "10:00")]
  ∧ showPrice new_movie_req = Some 200
  ∧ 200 ≠ 0
  ∧ Forall (λ p, is_Some (sample_Date_new (p.1 +:+ "T" +:+ p.2)))
           (supplied_pairs [mkShowInput "2025-07-01" (OneTime "10:00")])
  ∧ resolves_to tmdb_up tmdb_cast_up "m9" w_catalog
      (MovieDetails "m9" api_m9 ["Kaidanovsky"])
  ∧ ("2025-07-01", "10:00")
      ∈ supplied_pairs [mkShowInput "2025-07-01" (OneTime "10:00")]
  ∧ sample_Date_new ("2025-07-01" +:+ "T" +:+ "10:00") = Some 202507011000
  ∧ 202501010000 ≤ 202507011000
  ∧ ∃ ms,
      (getShows 202501010000
         (addShow sample_Date_new sample_ObjectId tmdb_up tmdb_cast_up
            details_first sample_rejection new_movie_req w_catalog).2).1
      = inr (mkResponse 200 (ShowsBody true ms))
      ∧ MovieDetails "m9" api_m9 ["Kaidanovsky"] ∈ ms.
Proof.
  assert (R : resolves_to tmdb_up tmdb_cast_up "m9" w_catalog
                (MovieDetails "m9" api_m9 ["Kaidanovsky"])).
  { right. split; [reflexivity|]. exists api_m9, ["Kaidanovsky"].
    split_and!; reflexivity. }
  assert (D : Forall (λ p, is_Some (sample_Date_new (p.1 +:+ "T" +:+ p.2)))
                (supplied_pairs [mkShowInput "2025-07-01" (OneTime "10:00")])).
  { repeat apply Forall_cons_2; try apply Forall_nil_2; by eexists. }
  assert (P : ("2025-07-01", "10:00")
                ∈ supplied_pairs [mkShowInput "2025-07-01" (OneTime "10:00")])
    by (simpl; by left).
  assert (T : 202501010000 ≤ 202507011000) by lia.
  split; [reflexivity|]. split; [discriminate|]. split; [reflexivity|].
  split; [reflexivity|]. split; [lia|]. split; [exact D|]. split; [exact R|].
  split; [exact P|]. split; [reflexivity|]. split; [exact T|].
  apply (addShow_then_getShows sample_Date_new sample_ObjectId tmdb_up tmdb_cast_up
           details_first sample_rejection
           new_movie_req w_catalog 202501010000 "m9"
           [mkShowInput "2025-07-01" (OneTime "10:00")] 200
           (MovieDetails "m9" api_m9 ["Kaidanovsky"]) "2025-07-01" "10:00"
           202507011000);
    [reflexivity|discriminate|reflexivity|reflexivity|lia|exact D|exact R
    |exact P|reflexivity|exact T].
Defined.

(** A request one of whose slots is no date creates no Show at all, so
    the movie is not listed afterwards, although its other slot is a
    date after [now]. *)
Example addShow_invalid_date_then_getShows :
  (getShows 202501010000
     (addShow sample_Date_new sample_ObjectId tmdb_up tmdb_cast_up
        details_first sample_rejection
        (mkAddShowBody (Some "m9")
           (Some [mkShowInput "2025-07-01" (OneTime "10:00");
                  mkShowInput "someday" (OneTime "10:00")])
           (Some 200))
        w_catalog).2).1
  = inr (mkResponse 200 (ShowsBody true [])).
Proof. reflexivity. Qed.

(** ** getShow *)

Section ShowDetailFacts.

Variable iso_date : Z → string.
Variable iso_time : Z → string.
Variable localeCompare_le : string → string → bool.

Abbreviation getShow' := (getShow iso_date iso_time localeCompare_le).

(** A movie id that is not in the Movie collection gets the 404, also
    when Shows that refer to it are stored; nothing is changed. *)
Theorem getShow_unknown_movie (now : Z) (movieId : string) (w : World) :
  Movie.findById movieId (movies w) = None →
  getShow' now movieId w
  = (inr (mkDetailResponse 404 (DetailMessage false "Movie not found.")), w).
Proof.
  intros H. unfold getShow, try_catch, mbind, M_bind, bind. simpl.
  unfold Movie_findById. by rewrite H.
Qed.

Lemma group_by_date_fold (l : list Show.doc) (dt : gmap string (list TimeEntry))
    (date : string) :
  foldl (λ dateTime show,
           let date := iso_date (Show.showDateTime show) in
           <[date := default [] (dateTime !! date) ++ [time_entry iso_time show]]>
             dateTime) dt l !! date
  = match time_entry iso_time <$>
          filter (λ s, iso_date (Show.showDateTime s) = date) l with
    | [] => dt !! date
    | es => Some (default [] (dt !! date) ++ es)
    end.
Proof.
  revert dt. induction l as [|s l IH]; intros dt; simpl; [done|].
  rewrite IH. rewrite filter_cons.
  destruct (decide (iso_date (Show.showDateTime s) = date)) as [E|Hne].
  - rewrite E, lookup_insert_eq, fmap_cons.
    destruct (time_entry iso_time <$> filter _ l) as [|e es]; [done|].
    simpl. by rewrite <- app_assoc.
  - by rewrite lookup_insert_ne.
Qed.

(** For a stored movie the answer groups the movie's upcoming Shows by
    calendar date: under each date stand exactly the [{time, showId}]
    entries of the Shows of this movie that start at or after [now] on
    that date, each once; a date without such a Show has no key; Shows
    of other movies and past Shows appear nowhere. *)
Theorem getShow_groups (now : Z) (movieId : string) (w : World) (m : Movie.doc) :
  Movie.findById movieId (movies w) = Some m →
  ∃ dateTime,
    getShow' now movieId w
    = (inr (mkDetailResponse 200 (Detail true m dateTime)), w)
    ∧ ∀ date,
        match dateTime !! date with
        | Some entries =>
            entries ≠ []
            ∧ entries ≡ₚ time_entry iso_time <$> shows_on iso_date now movieId date w
        | None => shows_on iso_date now movieId date w = []
        end.
Proof.
  intros H. eexists. split.
  { unfold getShow, try_catch, mbind, M_bind, bind. simpl.
    unfold Movie_findById. by rewrite H. }
  intros date. rewrite lookup_fmap. unfold group_by_date.
  rewrite group_by_date_fold, lookup_empty. simpl.
  assert (P : filter (λ s, iso_date (Show.showDateTime s) = date)
                (sort_by showDateTime_asc
                   (filter (λ s, Show.movie s = movieId ∧ now ≤ Show.showDateTime s)
                           (shows w)))
              ≡ₚ shows_on iso_date now movieId date w).
  { rewrite sort_by_Permutation. unfold shows_on.
    rewrite list_filter_filter.
    erewrite list_filter_iff; [reflexivity|]. intros s. simpl. tauto. }
  destruct (filter _ (sort_by _ _)) as [|s l] eqn:F; simpl.
  - symmetry in P. by apply Permutation_nil_r in P.
  - split.
    + intros E.
      pose proof (insert_by_Permutation (by_time localeCompare_le)
                    (time_entry iso_time s)
                    (sort_by (by_time localeCompare_le)
                       (list_fmap Show.doc TimeEntry (time_entry iso_time) l))) as Q.
      rewrite E in Q. by apply Permutation_nil_cons in Q.
    + rewrite insert_by_Permutation, sort_by_Permutation. by rewrite <- P.
Qed.

Lemma insert_by_sorted {A} (le : A → A → bool) (x : A) (l : list A) :
  (∀ a b, le a b = true ∨ le b a = true) →
  (∀ a b c, le a b = true → le b c = true → le a c = true) →
  StronglySorted (λ a b, le a b = true) l →
  StronglySorted (λ a b, le a b = true) (insert_by le x l).
Proof.
  intros Htot Htrans. induction 1 as [|y l Hl IH Hy]; simpl.
  - repeat constructor.
  - destruct (le x y) eqn:Hxy.
    + constructor; [by constructor|].
      constructor; [done|].
      eapply Forall_impl; [exact Hy|]. simpl. intros z Hz. by eapply Htrans.
    + constructor; [done|].
      rewrite insert_by_Permutation. constructor; [|done].
      destruct (Htot x y); congruence.
Qed.

Lemma sort_by_sorted {A} (le : A → A → bool) (l : list A) :
  (∀ a b, le a b = true ∨ le b a = true) →
  (∀ a b c, le a b = true → le b c = true → le a c = true) →
  StronglySorted (λ a b, le a b = true) (sort_by le l).
Proof.
  intros Htot Htrans. induction l as [|x l IH]; simpl; [constructor|].
  by apply insert_by_sorted.
Qed.

(** When [localeCompare] orders the time strings totally and
    transitively, the entries under every date come in ascending order
    of their time strings. *)
Theorem getShow_times_sorted (now : Z) (movieId : string) (w : World)
    (m : Movie.doc) (dateTime : gmap string (list TimeEntry))
    (date : string) (entries : list TimeEntry) :
  (∀ a b, localeCompare_le a b = true ∨ localeCompare_le b a = true) →
  (∀ a b c, localeCompare_le a b = true → localeCompare_le b c = true →
            localeCompare_le a c = true) →
  (getShow' now movieId w).1 = inr (mkDetailResponse 200 (Detail true m dateTime)) →
  dateTime !! date = Some entries →
  StronglySorted (λ a b, localeCompare_le (te_time a) (te_time b) = true) entries.
Proof.
  intros Htot Htrans. unfold getShow, try_catch, mbind, M_bind, bind. simpl.
  unfold Movie_findById. destruct (Movie.findById movieId (movies w)); simpl; [|done].
  intros [= _ <-]. rewrite lookup_fmap.
  destruct (group_by_date iso_date iso_time _ !! date) as [l|]; simpl; [|done].
  intros [= <-].
  apply (sort_by_sorted (by_time localeCompare_le)).
  - intros a b. apply Htot.
  - intros a b c. apply Htrans.
Qed.

End ShowDetailFacts.

Lemma Ascii_compare_N (a b : Ascii.ascii) :
  Ascii.compare a b = N.compare (Ascii.N_of_ascii a) (Ascii.N_of_ascii b).
Proof. reflexivity. Qed.

Lemma String_leb_trans (a b c : string) :
  String.leb a b = true → String.leb b c = true → String.leb a c = true.
Proof.
  unfold String.leb.
  revert b c. induction a as [|x a IH]; intros [|y b] [|z c]; simpl; try done.
  rewrite !Ascii_compare_N.
  destruct (N.compare_spec (Ascii.N_of_ascii x) (Ascii.N_of_ascii y)) as [E1|L1|G1];
    destruct (N.compare_spec (Ascii.N_of_ascii y) (Ascii.N_of_ascii z)) as [E2|L2|G2];
    destruct (N.compare_spec (Ascii.N_of_ascii x) (Ascii.N_of_ascii z)) as [E3|L3|G3];
    try done; try lia.
  apply IH.
Qed.

Lemma getShow_unknown_movie_witness :
  Movie.findById "m7" (movies w_times) = None
  ∧ Show.findById "s6" (shows w_times) = Some (Show.mk "s6" "m7" 202507011000 200 ∅)
  ∧ getShow sample_iso_date sample_iso_time String.leb 202501010000 "m7" w_times
    = (inr (mkDetailResponse 404 (DetailMessage false "Movie not found.")), w_times).
Proof.
  split; [reflexivity|]. split; [reflexivity|].
  apply (getShow_unknown_movie sample_iso_date sample_iso_time String.leb).
  reflexivity.
Defined.

Lemma getShow_groups_witness :
  Movie.findById "m1" (movies w_times) = Some movie_m1
  ∧ ∃ dateTime,
      getShow sample_iso_date sample_iso_time String.leb 202501010000 "m1" w_times
      = (inr (mkDetailResponse 200 (Detail true movie_m1 dateTime)), w_times)
      ∧ dateTime !! "2025-07-01"
        = Some [mkTimeEntry "10:00" "s4"; mkTimeEntry "18:30" "s1"]
      ∧ dateTime !! "2025-07-02" = Some [mkTimeEntry "21:00" "s3"]
      ∧ dateTime !! "2024-01-01" = None.
Proof.
  split; [reflexivity|].
  destruct (getShow_groups sample_iso_date sample_iso_time String.leb
              202501010000 "m1" w_times movie_m1 eq_refl) as (dateTime & E & _).
  exists dateTime. split; [exact E|].
  injection E as <-. split_and!; reflexivity.
Defined.

Lemma getShow_times_sorted_witness :
  ∃ dateTime,
    (getShow sample_iso_date sample_iso_time String.leb 202501010000 "m1" w_times).1
    = inr (mkDetailResponse 200 (Detail true movie_m1 dateTime))
    ∧ dateTime !! "2025-07-01"
      = Some [mkTimeEntry "10:00" "s4"; mkTimeEntry "18:30" "s1"]
    ∧ StronglySorted (λ a b, String.leb (te_time a) (te_time b) = true)
        [mkTimeEntry "10:00" "s4"; mkTimeEntry "18:30" "s1"].
Proof.
  eexists. split; [reflexivity|]. split; [reflexivity|].
  eapply (getShow_times_sorted sample_iso_date sample_iso_time String.leb
            202501010000 "m1" w_times movie_m1 _ "2025-07-01");
    [apply String.leb_total|apply String_leb_trans|reflexivity|reflexivity].
Defined.

(** ** The Express application of server.js *)

(** The booking router is mounted at ["api/booking"], without the
    leading slash.  A request path starts with a slash, so no request,
    whatever its method and path, is ever handed to the booking router. *)
Theorem booking_router_unreachable (m : Method) (rest : string) :
  bookingRouter ∉ dispatch m (String slash rest).
Proof.
  unfold dispatch. intros H.
  apply list_elem_of_fmap in H as (l & Ht & Hl).
  apply list_elem_of_filter in Hl as [Hm Hl].
  unfold app in Hl. rewrite !elem_of_cons, elem_of_nil in Hl.
  destruct Hl as [->|[->|[->|[->|[->|[->|[]]]]]]]; simpl in Ht; try discriminate Ht.
  vm_compute in Hm. discriminate Hm.
Qed.

(** The other four mounts do receive the requests under their prefix,
    and only those: each such request reaches exactly one router. *)
Theorem mounted_routers_reachable (m : Method) (rest : string) :
  dispatch m ("/api/show/" +:+ rest) = [showRouter]
  ∧ dispatch m ("/api/user/" +:+ rest) = [userRouter]
  ∧ dispatch m ("/api/admin/" +:+ rest) = [adminRouter]
  ∧ dispatch m ("/api/inngest/" +:+ rest) = [InngestServe]
  ∧ dispatch m ("/api/booking/" +:+ rest) = [].
Proof. destruct m; vm_compute; done. Qed.

(** ** The Clerk user sync *)

Lemma User_findById_app (id : string) (c c' : list User.doc) :
  User.findById id (c ++ c')
  = match User.findById id c with
    | Some u => Some u
    | None => User.findById id c'
    end.
Proof.
  induction c as [|d c IH]; simpl; [done|].
  by destruct (String.eqb (User._id d) id).
Qed.

Lemma User_create_delete (d : User.doc) (c : list User.doc) :
  User.findById (User._id d) c = None →
  User.findByIdAndDelete (User._id d) (c ++ [d]) = c.
Proof.
  induction c as [|x c IH]; simpl.
  - by rewrite String.eqb_refl.
  - destruct (String.eqb (User._id x) (User._id d)); [done|].
    intros H. by rewrite IH.
Qed.

(** A [clerk/user.created] event for an id that is not stored yet, with
    at least one e-mail address, stores one user under that id: with the
    first address, the two names joined by a space, and the image.
    Every other user is found as before. *)
Theorem syncUserCreation_then_find (data : Clerk.user) (users : list User.doc)
    (address : string) (others : list string) :
  Clerk.email_addresses data = address :: others →
  User.findById (Clerk.id data) users = None →
  (syncUserCreation data users).1 = inr tt
  ∧ User.findById (Clerk.id data) (syncUserCreation data users).2
    = Some (User.mk (Clerk.id data) address
              (to_text (Clerk.first_name data) +:+ " "
                 +:+ to_text (Clerk.last_name data))
              (Clerk.image_url data))
  ∧ ∀ other, other ≠ Clerk.id data →
      User.findById other (syncUserCreation data users).2
      = User.findById other users.
Proof.
  intros He Hf. unfold syncUserCreation, userData, User.create. rewrite He. simpl.
  rewrite Hf. simpl. split_and!; [done| |].
  - rewrite User_findById_app, Hf. simpl. by rewrite String.eqb_refl.
  - intros other Hne. rewrite User_findById_app.
    destruct (User.findById other users); [done|]. simpl.
    destruct (String.eqb_spec (Clerk.id data) other); [congruence|done].
Qed.

Lemma syncUserCreation_then_find_witness :
  Clerk.email_addresses clerk_bob = ["bob@example.org"]
  ∧ User.findById "user_2" [user_ann] = None
  ∧ (syncUserCreation clerk_bob [user_ann]).1 = inr tt
  ∧ User.findById "user_2" (syncUserCreation clerk_bob [user_ann]).2 = Some user_bob
  ∧ User.findById "user_1" (syncUserCreation clerk_bob [user_ann]).2 = Some user_ann.
Proof.
  split; [reflexivity|]. split; [reflexivity|].
  destruct (syncUserCreation_then_find clerk_bob [user_ann] "bob@example.org" []
              eq_refl eq_refl) as (H1 & H2 & H3).
  split; [exact H1|]. split; [exact H2|].
  rewrite (H3 "user_1"); [reflexivity|discriminate].
Defined.

(** An event without any e-mail address makes creation and update throw
    a [TypeError] on [email_addresses[0].email_address]; nothing is
    stored or changed. *)
Theorem sync_without_email_throws (data : Clerk.user) (users : list User.doc) :
  Clerk.email_addresses data = [] →
  syncUserCreation data users = (inl Js.TypeError, users)
  ∧ syncUserUpdation data users = (inl Js.TypeError, users).
Proof.
  intros He. unfold syncUserCreation, syncUserUpdation, userData. by rewrite He.
Qed.

Lemma sync_without_email_throws_witness :
  Clerk.email_addresses clerk_nomail = []
  ∧ syncUserCreation clerk_nomail [user_ann] = (inl Js.TypeError, [user_ann])
  ∧ syncUserUpdation clerk_nomail [user_ann; user_cy]
    = (inl Js.TypeError, [user_ann; user_cy]).
Proof.
  split; [reflexivity|]. split.
  - exact (proj1 (sync_without_email_throws clerk_nomail [user_ann] eq_refl)).
  - exact (proj2 (sync_without_email_throws clerk_nomail [user_ann; user_cy] eq_refl)).
Defined.

(** Created and then deleted: a [clerk/user.deleted] event after the
    [clerk/user.created] event of a new user gives back the collection
    exactly as it was. *)
Theorem syncUserCreation_then_Deletion (data : Clerk.user) (users : list User.doc) :
  Clerk.email_addresses data ≠ [] →
  User.findById (Clerk.id data) users = None →
  (syncUserDeletion data (syncUserCreation data users).2).2 = users.
Proof.
  intros He Hf. unfold syncUserDeletion, syncUserCreation, userData, User.create.
  destruct (Clerk.email_addresses data) as [|address others]; [done|]. simpl.
  rewrite Hf. simpl.
  apply (User_create_delete (User.mk (Clerk.id data) address _ _)). exact Hf.
Qed.

Lemma syncUserCreation_then_Deletion_witness :
  Clerk.email_addresses clerk_bob ≠ []
  ∧ User.findById "user_2" [user_ann] = None
  ∧ (syncUserCreation clerk_bob [user_ann]).2 = [user_ann; user_bob]
  ∧ (syncUserDeletion clerk_bob (syncUserCreation clerk_bob [user_ann]).2).2
    = [user_ann].
Proof.
  assert (H : Clerk.email_addresses clerk_bob ≠ []) by discriminate.
  split; [exact H|]. split; [reflexivity|]. split; [reflexivity|].
  exact (syncUserCreation_then_Deletion clerk_bob [user_ann] H eq_refl).
Defined.

(** A redelivered [clerk/user.created] event does not store the user
    twice: the second run throws the duplicate-key error and leaves the
    collection as the first run left it. *)
Theorem syncUserCreation_redelivered (data : Clerk.user) (users : list User.doc) :
  Clerk.email_addresses data ≠ [] →
  ∃ error,
    syncUserCreation data (syncUserCreation data users).2
    = (inl error, (syncUserCreation data users).2).
Proof.
  intros He. unfold syncUserCreation, userData, User.create.
  destruct (Clerk.email_addresses data) as [|address others]; [done|]. simpl.
  destruct (User.findById (Clerk.id data) users) as [u|] eqn:Hf; simpl.
  - rewrite Hf. by eexists.
  - rewrite User_findById_app, Hf. simpl. rewrite String.eqb_refl. by eexists.
Qed.

Lemma syncUserCreation_redelivered_witness :
  Clerk.email_addresses clerk_bob ≠ []
  ∧ (syncUserCreation clerk_bob [user_ann]).2 = [user_ann; user_bob]
  ∧ ∃ error,
      syncUserCreation clerk_bob (syncUserCreation clerk_bob [user_ann]).2
      = (inl error, (syncUserCreation clerk_bob [user_ann]).2).
Proof.
  assert (H : Clerk.email_addresses clerk_bob ≠ []) by discriminate.
  split; [exact H|]. split; [reflexivity|].
  exact (syncUserCreation_redelivered clerk_bob [user_ann] H).
Defined.

Lemma User_update_find (id other : string) (d : User.doc) (c : list User.doc) :
  User._id d = id →
  User.findById other (User.findByIdAndUpdate id d c)
  = if String.eqb other id then (λ _, d) <$> User.findById id c else User.findById other c.
Proof.
  intros Hd. induction c as [|x c IH]; simpl.
  - by destruct (String.eqb other id).
  - destruct (String.eqb_spec (User._id x) id) as [Hx|Hx]; simpl.
    + rewrite Hd. destruct (String.eqb_spec id other) as [<-|Hne].
      * by rewrite String.eqb_refl.
      * destruct (String.eqb_spec other id); [congruence|].
        destruct (String.eqb_spec (User._id x) other); [congruence|done].
    + destruct (String.eqb_spec (User._id x) other) as [Ho|Ho].
      * destruct (String.eqb_spec other id); [congruence|done].
      * exact IH.
Qed.

(** A [clerk/user.updated] event rewrites the stored user of that id in
    place, with the event's first address, joined names and image; it
    never inserts (an unknown id leaves the collection as it is), never
    touches another user and never changes which ids are stored. *)
Theorem syncUserUpdation_in_place (data : Clerk.user) (users : list User.doc)
    (address : string) (others : list string) :
  Clerk.email_addresses data = address :: others →
  let d := User.mk (Clerk.id data) address
             (to_text (Clerk.first_name data) +:+ " "
                +:+ to_text (Clerk.last_name data))
             (Clerk.image_url data) in
  let users' := (syncUserUpdation data users).2 in
  (syncUserUpdation data users).1 = inr tt
  ∧ User.findById (Clerk.id data) users'
    = (λ _, d) <$> User.findById (Clerk.id data) users
  ∧ (User.findById (Clerk.id data) users = None → users' = users)
  ∧ (∀ other, other ≠ Clerk.id data →
       User.findById other users' = User.findById other users)
  ∧ User._id <$> users' = User._id <$> users.
Proof.
  intros He. unfold syncUserUpdation, userData. rewrite He. simpl.
  split_and!; [done| | | |].
  - rewrite User_update_find by done. by rewrite String.eqb_refl.
  - induction users as [|x c IH]; simpl; [done|].
    destruct (String.eqb (User._id x) (Clerk.id data)); [done|].
    intros H. by rewrite IH.
  - intros other Hne. rewrite User_update_find by done.
    destruct (String.eqb_spec other (Clerk.id data)); [congruence|done].
  - induction users as [|x c IH]; simpl; [done|].
    destruct (String.eqb_spec (User._id x) (Clerk.id data)) as [E|E]; simpl.
    + by rewrite E.
    + f_equal. exact IH.
Qed.

Lemma syncUserUpdation_in_place_witness :
  Clerk.email_addresses clerk_ann = ["ann@example.org"; "al@example.org"]
  ∧ (syncUserUpdation clerk_ann
       [User.mk "user_1" "old@example.org" "A. Lee" ""; user_cy]).2
    = [user_ann; user_cy]
  ∧ (syncUserUpdation clerk_ann [user_cy]).2 = [user_cy].
Proof.
  split; [reflexivity|].
  destruct (syncUserUpdation_in_place clerk_ann [user_cy] "ann@example.org"
              ["al@example.org"] eq_refl) as (_ & _ & H & _).
  split; [reflexivity|]. apply H. reflexivity.
Defined.

(** ** The new-show mail *)

Section MailFacts.

Variable rejects : Email → option string.

Lemma notify_each_app (title : string) (before after : list User.doc)
    (outbox : list Email) :
  (∀ u, u ∈ before → rejects (new_show_mail title u) = None) →
  notify_each rejects title (before ++ after) outbox
  = notify_each rejects title after (outbox ++ (new_show_mail title <$> before)).
Proof.
  revert outbox. induction before as [|u before IH]; intros outbox H; simpl.
  - by rewrite app_nil_r.
  - unfold sendEmail. rewrite (H u) by by left. simpl.
    rewrite IH by (intros v Hv; apply H; by right).
    by rewrite <- app_assoc.
Qed.

(** When the transport takes every message, each stored user gets
    exactly one mail, in collection order, addressed to the user's
    e-mail, and the function returns its message. *)
Theorem sendNewShowNotification_all (title : string) (users : list User.doc)
    (outbox : list Email) :
  (∀ u, u ∈ users → rejects (new_show_mail title u) = None) →
  sendNewShowNotification rejects title users outbox
  = (inr "Notification sent.", outbox ++ (new_show_mail title <$> users)).
Proof.
  intros H. unfold sendNewShowNotification.
  rewrite <- (app_nil_r users) at 1. rewrite notify_each_app by done. done.
Qed.

(** One refused message ends the run: the users before the refused one
    have their mail, the refused one and every user after it get none,
    and the function throws the transport's error. *)
Theorem sendNewShowNotification_stops_at_refusal (title : string)
    (before after : list User.doc) (u : User.doc) (msg : string)
    (outbox : list Email) :
  (∀ v, v ∈ before → rejects (new_show_mail title v) = None) →
  rejects (new_show_mail title u) = Some msg →
  sendNewShowNotification rejects title (before ++ u :: after) outbox
  = (inl (Js.Error msg), outbox ++ (new_show_mail title <$> before)).
Proof.
  intros H Hu. unfold sendNewShowNotification.
  rewrite notify_each_app by done. simpl. unfold sendEmail. by rewrite Hu.
Qed.

End MailFacts.

Lemma sendNewShowNotification_all_witness :
  (∀ u, u ∈ [user_ann; user_cy] → refuses_bob (new_show_mail "Heat" u) = None)
  ∧ sendNewShowNotification refuses_bob "Heat" [user_ann; user_cy] []
    = (inr "Notification sent.",
       [new_show_mail "Heat" user_ann; new_show_mail "Heat" user_cy]).
Proof.
  assert (H : ∀ u, u ∈ [user_ann; user_cy] →
                refuses_bob (new_show_mail "Heat" u) = None).
  { intros u Hu. apply elem_of_cons in Hu as [->|Hu]; [reflexivity|].
    apply list_elem_of_singleton in Hu as ->. reflexivity. }
  split; [exact H|].
  exact (sendNewShowNotification_all refuses_bob "Heat" [user_ann; user_cy] [] H).
Defined.

Lemma sendNewShowNotification_stops_at_refusal_witness :
  (∀ v, v ∈ [user_ann] → refuses_bob (new_show_mail "Heat" v) = None)
  ∧ refuses_bob (new_show_mail "Heat" user_bob) = Some "550 mailbox unavailable"
  ∧ sendNewShowNotification refuses_bob "Heat" [user_ann; user_bob; user_cy] []
    = (inl (Js.Error "550 mailbox unavailable"), [new_show_mail "Heat" user_ann]).
Proof.
  assert (H : ∀ v, v ∈ [user_ann] → refuses_bob (new_show_mail "Heat" v) = None).
  { intros v Hv. apply list_elem_of_singleton in Hv as ->. reflexivity. }
  split; [exact H|]. split; [reflexivity|].
  exact (sendNewShowNotification_stops_at_refusal refuses_bob "Heat"
           [user_ann] [user_cy] user_bob "550 mailbox unavailable" [] H eq_refl).
Defined.

(** ** Favourites *)

Lemma toggle_favorite_elem (movieId other : string) (favorites : list string) :
  other ∈ toggle_favorite movieId favorites
  ↔ if decide (other = movieId) then movieId ∉ favorites else other ∈ favorites.
Proof.
  unfold toggle_favorite.
  destruct (bool_decide_reflect (movieId ∈ favorites)) as [Hin|Hnin].
  - rewrite list_elem_of_filter.
    destruct (decide (other = movieId)) as [->|Hne]; tauto.
  - rewrite elem_of_app, list_elem_of_singleton.
    destruct (decide (other = movieId)) as [->|Hne]; tauto.
Qed.

Section FavoritesFacts.

Variable user_not_found : string.
Variable find_in_undefined : list Movie.doc → Js.exn + list Movie.doc.

Abbreviation updateFavorite' := (updateFavorite user_not_found).
Abbreviation getFavorites' := (getFavorites user_not_found find_in_undefined).

(** [updateFavorite] is a toggle for a known user: afterwards the movie
    is a favourite exactly if it was not one before, every other movie
    keeps its status, a duplicate-free list stays duplicate-free, and no
    other user's entry changes. *)
Theorem updateFavorite_toggles (userId movieId : string) (clerk : ClerkStore) :
  is_Some (clerk !! userId) →
  let clerk' := (updateFavorite' userId movieId clerk).2 in
  (updateFavorite' userId movieId clerk).1 = FavMessage true "Favorite added updated."
  ∧ (movieId ∈ favorites_of clerk' userId ↔ movieId ∉ favorites_of clerk userId)
  ∧ (∀ other, other ≠ movieId →
       other ∈ favorites_of clerk' userId ↔ other ∈ favorites_of clerk userId)
  ∧ (NoDup (favorites_of clerk userId) → NoDup (favorites_of clerk' userId))
  ∧ (∀ user, user ≠ userId → clerk' !! user = clerk !! user).
Proof.
  intros [fo Hf]. unfold updateFavorite, favorites_of. rewrite Hf. simpl.
  rewrite lookup_insert_eq. simpl. split_and!; [done| | | |].
  - rewrite toggle_favorite_elem. by rewrite decide_True.
  - intros other Hne. rewrite toggle_favorite_elem. by rewrite decide_False.
  - intros Hnd. unfold toggle_favorite.
    destruct (bool_decide (movieId ∈ default [] fo)) eqn:B.
    + by apply NoDup_filter.
    + apply bool_decide_eq_false in B. apply NoDup_app. split_and!; [done| |].
      * intros x Hx Hx'. apply list_elem_of_singleton in Hx'. by subst.
      * apply NoDup_singleton.
  - intros user Hne. by rewrite lookup_insert_ne.
Qed.

Lemma filter_absent (movieId : string) (l : list string) :
  movieId ∉ l → filter (λ item, item ≠ movieId) l = l.
Proof.
  induction l as [|x l IH]; [done|]. rewrite not_elem_of_cons. intros [Hne Hnin].
  rewrite filter_cons, decide_True by done. by rewrite IH.
Qed.

(** Toggling twice: for a movie that was not a favourite the list ends
    up as it was, element for element; for one that was (in a
    duplicate-free list) the same movies are favourites again, with the
    toggled one moved to the end. *)
Theorem updateFavorite_twice (userId movieId : string) (clerk : ClerkStore) :
  is_Some (clerk !! userId) →
  let twice := (updateFavorite' userId movieId
                  (updateFavorite' userId movieId clerk).2).2 in
  (movieId ∉ favorites_of clerk userId →
   favorites_of twice userId = favorites_of clerk userId)
  ∧ (movieId ∈ favorites_of clerk userId → NoDup (favorites_of clerk userId) →
     favorites_of twice userId
     = filter (λ item, item ≠ movieId) (favorites_of clerk userId) ++ [movieId]
     ∧ favorites_of twice userId ≡ₚ favorites_of clerk userId).
Proof.
  intros [fo Hf]. unfold updateFavorite, favorites_of. rewrite Hf. simpl.
  rewrite lookup_insert_eq. simpl. rewrite lookup_insert_eq. simpl. split.
  - intros Hnin.
    assert (E1 : toggle_favorite movieId (default [] fo) = default [] fo ++ [movieId]).
    { unfold toggle_favorite. by rewrite bool_decide_eq_false_2. }
    rewrite E1. unfold toggle_favorite.
    rewrite bool_decide_eq_true_2 by (apply elem_of_app; right; by left).
    rewrite filter_app, filter_absent by done.
    rewrite filter_cons, decide_False by (intros H; by apply H).
    by rewrite filter_nil, app_nil_r.
  - intros Hin Hnd.
    assert (Hout : movieId ∉ filter (λ item, item ≠ movieId) (default [] fo)).
    { rewrite list_elem_of_filter. intros [H _]. by apply H. }
    assert (E1 : toggle_favorite movieId (default [] fo)
                 = filter (λ item, item ≠ movieId) (default [] fo)).
    { unfold toggle_favorite. by rewrite bool_decide_eq_true_2. }
    assert (E2 : toggle_favorite movieId
                   (filter (λ item, item ≠ movieId) (default [] fo))
                 = filter (λ item, item ≠ movieId) (default [] fo) ++ [movieId]).
    { unfold toggle_favorite. by rewrite bool_decide_eq_false_2. }
    rewrite E1, E2. split; [done|].
    apply NoDup_Permutation.
    + apply NoDup_app. split_and!; [by apply NoDup_filter| |apply NoDup_singleton].
      intros x Hx Hx'. apply list_elem_of_singleton in Hx'. by subst.
    + done.
    + intros x. rewrite elem_of_app, list_elem_of_filter, list_elem_of_singleton.
      destruct (decide (x = movieId)) as [->|Hne]; tauto.
Qed.

(** For a user Clerk does not know both handlers answer
    [success: false] with Clerk's message, and [updateFavorite] stores
    nothing. *)
Theorem favorites_unknown_user (userId movieId : string) (clerk : ClerkStore)
    (movies : list Movie.doc) :
  clerk !! userId = None →
  updateFavorite' userId movieId clerk = (FavMessage false user_not_found, clerk)
  ∧ getFavorites' userId clerk movies = FavMessage false user_not_found.
Proof. intros H. unfold updateFavorite, getFavorites. by rewrite H. Qed.

(** Marking and then listing: after [updateFavorite] on a movie that was
    not a favourite, [getFavorites] lists every stored Movie with that
    id; after [updateFavorite] on one that was, it lists none with that
    id.  In both cases the list holds favourites only, in the order of
    the Movie collection. *)
Theorem updateFavorite_then_getFavorites (userId movieId : string)
    (clerk : ClerkStore) (movies : list Movie.doc) :
  is_Some (clerk !! userId) →
  ∃ listed,
    getFavorites' userId (updateFavorite' userId movieId clerk).2 movies
    = FavMovies true listed
    ∧ listed `sublist_of` movies
    ∧ (∀ m, m ∈ movies → Movie._id m = movieId →
         (m ∈ listed ↔ movieId ∉ favorites_of clerk userId))
    ∧ (∀ m, m ∈ movies → Movie._id m ≠ movieId →
         (m ∈ listed ↔ Movie._id m ∈ favorites_of clerk userId)).
Proof.
  intros [fo Hf]. unfold updateFavorite, getFavorites, favorites_of.
  rewrite Hf. simpl. rewrite lookup_insert_eq. eexists. split; [done|].
  split_and!.
  - apply sublist_filter.
  - intros m Hm Hid. rewrite list_elem_of_filter, toggle_favorite_elem.
    rewrite decide_True by done. tauto.
  - intros m Hm Hid. rewrite list_elem_of_filter, toggle_favorite_elem.
    rewrite decide_False by done. tauto.
Qed.

End FavoritesFacts.

Lemma updateFavorite_toggles_witness :
  is_Some (clerk_sample !! "user_1")
  ∧ favorites_of clerk_sample "user_1" = ["m2"; "m1"]
  ∧ favorites_of (updateFavorite "not found" "user_1" "m2" clerk_sample).2 "user_1"
    = ["m1"]
  ∧ ("m2" ∈ favorites_of (updateFavorite "not found" "user_1" "m2" clerk_sample).2
              "user_1"
     ↔ "m2" ∉ favorites_of clerk_sample "user_1").
Proof.
  assert (H : is_Some (clerk_sample !! "user_1")) by by eexists.
  split; [exact H|]. split; [reflexivity|]. split; [reflexivity|].
  exact (proj1 (proj2 (updateFavorite_toggles "not found" "user_1" "m2"
                          clerk_sample H))).
Defined.

Lemma updateFavorite_twice_witness :
  is_Some (clerk_sample !! "user_2")
  ∧ ("m1" ∉ favorites_of clerk_sample "user_2")
  ∧ favorites_of (updateFavorite "not found" "user_2" "m1" clerk_sample).2 "user_2"
    = ["m1"]
  ∧ favorites_of
      (updateFavorite "not found" "user_2" "m1"
         (updateFavorite "not found" "user_2" "m1" clerk_sample).2).2 "user_2"
    = favorites_of clerk_sample "user_2".
Proof.
  assert (H : is_Some (clerk_sample !! "user_2")) by by eexists.
  assert (N : "m1" ∉ favorites_of clerk_sample "user_2").
  { intros X. vm_compute in X. by apply elem_of_nil in X. }
  split; [exact H|]. split; [exact N|]. split; [reflexivity|].
  exact (proj1 (updateFavorite_twice "not found" "user_2" "m1" clerk_sample H) N).
Defined.

Lemma favorites_unknown_user_witness :
  clerk_sample !! "user_9" = None
  ∧ updateFavorite "not found" "user_9" "m1" clerk_sample
    = (FavMessage false "not found", clerk_sample).
Proof.
  split; [reflexivity|].
  exact (proj1 (favorites_unknown_user "not found" (λ _, inr []) "user_9" "m1"
                  clerk_sample [] eq_refl)).
Defined.

Lemma updateFavorite_then_getFavorites_witness :
  is_Some (clerk_sample !! "user_2")
  ∧ getFavorites "not found" (λ _, inr [])
      "user_2" (updateFavorite "not found" "user_2" "m1" clerk_sample).2
      [movie_m1; movie_m2]
    = FavMovies true [movie_m1]
  ∧ ∃ listed,
      getFavorites "not found" (λ _, inr [])
        "user_2" (updateFavorite "not found" "user_2" "m1" clerk_sample).2
        [movie_m1; movie_m2]
      = FavMovies true listed
      ∧ listed `sublist_of` [movie_m1; movie_m2].
Proof.
  assert (H : is_Some (clerk_sample !! "user_2")) by by eexists.
  split; [exact H|]. split; [reflexivity|].
  destruct (updateFavorite_then_getFavorites "not found" (λ _, inr [])
              "user_2" "m1" clerk_sample [movie_m1; movie_m2] H)
    as (listed & E & S & _).
  exists listed. split; [exact E|exact S].
Defined.
